(** * The value formatter of @untools/logger

    A shallow embedding of [Logger.formatArgument] and [Logger.formatDOMElement]
    in two revisions of the library:

    - [Plain]  : [src/index.ts], the plain-text formatter
                 ([formatArgument(arg, depth, seen)]);
    - [Styled] : the revision with colours and pretty-printing
                 ([formatArgument(arg, { depth, seen, indentation })]).

    JavaScript values live in a store of objects addressed by identity, so
    that cyclic and shared structures can be written down.  The [seen]
    WeakMap is threaded as state; a thrown exception is an outcome of its
    own and keeps the state reached so far. *)

From Stdlib Require Import String Ascii ZArith DecimalString.
From stdpp Require Import gmap sets list strings.

Open Scope string_scope.
Open Scope nat_scope.

(** ** Values and the object store *)

(** Object identity. *)
Definition addr := nat.

(** Numbers that have a decimal literal without a fraction, and the three
    non-finite ones. *)
Inductive JsNumber :=
| NumInt (z : Z)
| NumNaN
| NumInfinity (negative : bool).

(** A value is a primitive, a function (only its [name] is read) or a
    reference to an object of the store. *)
Inductive Value :=
| VNull
| VUndefined
| VString (s : string)
| VNumber (n : JsNumber)
| VBoolean (b : bool)
| VSymbol (description : string)
| VBigInt (z : Z)
| VFunction (name : string)
| VRef (a : addr).

(** What a thrown value looks like to [catch (error)]: an [Error] with its
    message, or anything else. *)
Inductive JsThrown :=
| ThrownError (message : string)
| ThrownOther.

(** An instance of the host's [Element]: the fields [formatDOMElement]
    reads, and the own enumerable string-keyed properties [Object.entries]
    would list. *)
Record Element := {
  tagName : string;
  attributes : list (string * string);
  children : nat;
  ownProperties : list (string * Value)
}.

(** Objects, by the tests [formatArgument] applies to them.  [ODate None] is
    a date whose time value is NaN.  [OObject] carries the result of
    [Object.entries], in enumeration order; [OExotic] is an object on which
    [Object.entries] throws (a throwing getter or proxy trap). *)
Inductive Obj :=
| OElement (el : Element)
| OError (name message : string) (stack : option string)
| ODate (iso : option string)
| ORegExp (text : string)
| OArray (items : list Value)
| OObject (entries : list (string * Value))
| OExotic (thrown : JsThrown).

Definition Heap := addr → Obj.

(** ** Outcomes, and the monad of [seen]-passing computations *)

Inductive Outcome (A : Type) :=
| Returned (a : A)
| Threw (e : JsThrown).
Arguments Returned {A} a.
Arguments Threw {A} e.

(** [seen] is a [WeakMap<object, boolean>] that only ever stores [true]:
    the set of its keys. *)
Definition Seen := gset addr.

(** [None] means that the recursion budget of the model ran out; it is not a
    JavaScript exception and no [catch] sees it. *)
Definition M (A : Type) : Type := Seen → option (Seen * Outcome A).

Definition ret {A} (a : A) : M A := fun seen => Some (seen, Returned a).

Definition throw {A} (e : JsThrown) : M A := fun seen => Some (seen, Threw e).

Definition outOfFuel {A} : M A := fun _ => None.

Definition bind {A B} (m : M A) (k : A → M B) : M B :=
  fun seen =>
    match m seen with
    | None => None
    | Some (seen', Threw e) => Some (seen', Threw e)
    | Some (seen', Returned a) => k a seen'
    end.

Notation "'do' x <- m ; k" := (bind m (fun x => k))
  (at level 10, x pattern, m at level 100, k at level 200, only parsing).
Notation "'run' m ; k" := (bind m (fun _ => k))
  (at level 10, m at level 100, k at level 200, only parsing).

(** [try { m } catch (error) { handler error }] *)
Definition tryCatch {A} (m : M A) (handler : JsThrown → M A) : M A :=
  fun seen =>
    match m seen with
    | None => None
    | Some (seen', Threw e) => handler e seen'
    | Some (seen', Returned a) => Some (seen', Returned a)
    end.

Definition lift {A} (o : Outcome A) : M A := fun seen => Some (seen, o).

(** [seen.has(arg)] and [seen.set(arg, true)] *)
Definition seenHas (a : addr) : M bool :=
  fun seen => Some (seen, Returned (bool_decide (a ∈ seen))).

Definition seenSet (a : addr) : M unit :=
  fun seen => Some ({[a]} ∪ seen, Returned tt).

(** [xs.map(f)]: the callback runs on the elements from left to right; the
    first exception ends the loop. *)
Fixpoint mapM {A B} (f : A → M B) (xs : list A) : M (list B) :=
  match xs with
  | [] => ret []
  | x :: xs' => do y <- f x; do ys <- mapM f xs'; ret (y :: ys)
  end.

(** ** Host functions on strings and numbers *)

(** [strs.join(sep)] *)
Definition join (sep : string) (strs : list string) : string :=
  String.concat sep strs.

(** [" ".repeat(n)] *)
Fixpoint spaces (n : nat) : string :=
  match n with
  | O => EmptyString
  | S n' => String " " (spaces n')
  end.

(** The decimal literal of a length or a count. *)
Definition natToString (n : nat) : string :=
  NilEmpty.string_of_uint (Nat.to_uint n).

Definition intToString (z : Z) : string :=
  NilZero.string_of_int (Z.to_int z).

(** [String(arg)] on a number *)
Definition String_number (n : JsNumber) : string :=
  match n with
  | NumInt z => intToString z
  | NumNaN => "NaN"
  | NumInfinity false => "Infinity"
  | NumInfinity true => "-Infinity"
  end.

(** [String(arg)] on a boolean, a symbol and a bigint *)
Definition String_boolean (b : bool) : string :=
  if b then "true" else "false".

Definition String_symbol (description : string) : string :=
  "Symbol(" +:+ description +:+ ")".

Definition String_bigint (z : Z) : string := intToString z.

(** [x || "anonymous"] and [x || ""] on a string that may be empty or
    missing *)
Definition orElse (s fallback : string) : string :=
  match s with
  | EmptyString => fallback
  | _ => s
  end.

(** [s.toLowerCase()], on the ASCII letters *)
Definition lowerAscii (c : ascii) : ascii :=
  let n := nat_of_ascii c in
  if (65 <=? n) && (n <=? 90) then ascii_of_nat (n + 32) else c.

Fixpoint toLowerCase (s : string) : string :=
  match s with
  | EmptyString => EmptyString
  | String c s' => String (lowerAscii c) (toLowerCase s')
  end.

Definition newline : string := String (ascii_of_nat 10) EmptyString.

Definition dquote : string := String (ascii_of_nat 34) EmptyString.

(** [Object.entries(arg)] *)
Definition indexed (items : list Value) : list (string * Value) :=
  imap (fun i v => (natToString i, v)) items.

Definition Object_entries (o : Obj) : Outcome (list (string * Value)) :=
  match o with
  | OObject entries => Returned entries
  | OExotic thrown => Threw thrown
  | OElement el => Returned (ownProperties el)
  | OArray items => Returned (indexed items)
  | OError _ _ _ | ODate _ | ORegExp _ => Returned []
  end.

(** [date.toISOString()] *)
Definition toISOString (iso : option string) : Outcome string :=
  match iso with
  | Some s => Returned s
  | None => Threw (ThrownError "Invalid time value")
  end.

(** [error instanceof Error ? error.message : "unknown error"] *)
Definition errorMessage (e : JsThrown) : string :=
  match e with
  | ThrownError message => message
  | ThrownOther => "unknown error"
  end.

Inductive DomElementFormat := Inspect | Summary | Disabled.

(** The attribute loop of the "inspect" format:
    [attributes += ` ${attr.name}="${attr.value}"`] *)
Fixpoint attributeList (attrs : list (string * string)) : string :=
  match attrs with
  | [] => EmptyString
  | (name, value) :: rest =>
      " " +:+ name +:+ "=" +:+ dquote +:+ value +:+ dquote +:+ attributeList rest
  end.

(** ** [src/index.ts] *)

Module Plain.

Record Logger := {
  maxDepth : nat;
  maxStringLength : nat;
  enableCircularHandling : bool;
  domElementFormat : DomElementFormat
}.

(** The globals tested by [typeof window !== "undefined" && window.Element]. *)
Record Host := {
  windowDefined : bool;
  windowElement : bool
}.

Definition defaults : Logger := {|
  maxDepth := 5;
  maxStringLength := 100 * 100;
  enableCircularHandling := true;
  domElementFormat := Summary
|}.

Section Formatter.

Variable L : Logger.
Variable host : Host.
Variable heap : Heap.

Definition formatDOMElement (element : Element) : string :=
  match domElementFormat L with
  | Disabled => "[DOM Element]"
  | Inspect =>
      let attrs := attributeList (attributes element) in
      let kids :=
        if 0 <? children element
        then " (" +:+ natToString (children element) +:+ " children)"
        else EmptyString in
      "<" +:+ toLowerCase (tagName element) +:+ attrs +:+ ">" +:+ kids
  | Summary =>
      "<" +:+ toLowerCase (tagName element) +:+ "> with "
        +:+ natToString (length (attributes element)) +:+ " attributes and "
        +:+ natToString (children element) +:+ " children"
  end.

(** [arg instanceof Element], behind the tests on the globals *)
Definition asElement (o : Obj) : option Element :=
  if windowDefined host && windowElement host
  then match o with OElement el => Some el | _ => None end
  else None.

(** The circular check and registration shared by arrays and objects;
    [true] when the container was already seen. *)
Definition checkCircular (a : addr) : M bool :=
  do has <- seenHas a;
  if enableCircularHandling L && has then ret true
  else run (if enableCircularHandling L then seenSet a else ret tt); ret false.

(** The body of [formatArgument]; [recur] stands for the calls
    [this.formatArgument(item, depth + 1, seen)] it makes. *)
Definition formatArgumentBody (recur : Value → nat → M string)
    (arg : Value) (depth : nat) : M string :=
    if maxDepth L <? depth then ret "[Max Depth Reached]"
    else
      match arg with
      | VNull => ret "null"
      | VUndefined => ret "undefined"
      | VString s =>
          if maxStringLength L <? String.length s
          then ret (substring 0 (maxStringLength L) s +:+ "... [truncated, "
                      +:+ natToString (String.length s) +:+ " chars total]")
          else ret s
      | VNumber n => ret (String_number n)
      | VBoolean b => ret (String_boolean b)
      | VSymbol d => ret (String_symbol d)
      | VBigInt z => ret (String_bigint z)
      | VFunction name => ret ("[Function: " +:+ orElse name "anonymous" +:+ "]")
      | VRef a =>
          match asElement (heap a) with
          | Some el => ret (formatDOMElement el)
          | None =>
            match heap a with
            | OError name message stack =>
                ret (name +:+ ": " +:+ message +:+ newline
                       +:+ orElse (default EmptyString stack) EmptyString)
            | ODate iso => lift (toISOString iso)
            | ORegExp text => ret text
            | OArray items =>
                do circular <- checkCircular a;
                if circular : bool then ret "[Circular Reference]"
                else
                  do strs <- mapM (fun item => recur item (depth + 1)) items;
                  ret ("[" +:+ join ", " strs +:+ "]")
            | o =>
                do circular <- checkCircular a;
                if circular : bool then ret "[Circular Reference]"
                else
                  tryCatch
                    (do entries <- lift (Object_entries o);
                     do strs <- mapM (fun '(key, value) =>
                                    do s <- recur value (depth + 1);
                                    ret (key +:+ ": " +:+ s)) entries;
                     ret ("{" +:+ join ", " strs +:+ "}"))
                    (fun error =>
                       ret ("[Object: failed to stringify - "
                              +:+ errorMessage error +:+ "]"))
            end
          end
      end.

(** Each activation of [formatArgument] takes one unit of [fuel]. *)
Fixpoint formatArgument (fuel : nat) : Value → nat → M string :=
  match fuel with
  | O => fun _ _ => outOfFuel
  | S fuel' => formatArgumentBody (formatArgument fuel')
  end.

(** [this.formatArgument(arg)] as [_log] calls it: depth 0 and a fresh
    [seen].  One activation for the call itself and [maxDepth + 1] for the
    calls below it. *)
Definition format (arg : Value) : option (Outcome string) :=
  snd <$> formatArgument (S (maxDepth L + 1)) arg 0 ∅.

End Formatter.

End Plain.

(** ** The revision with colours and pretty-printing *)

Module Styled.

Record Env := {
  isDevelopment : bool;
  isNode : bool;
  isBrowser : bool;
  isEdgeRuntime : bool
}.

Record Logger := {
  maxDepth : nat;
  maxStringLength : nat;
  enableCircularHandling : bool;
  domElementFormat : DomElementFormat;
  prettyPrint : bool;
  indentSize : nat;
  useColors : bool;
  env : Env
}.

(** The globals tested by [typeof window !== "undefined"] and
    [typeof Element !== "undefined"]. *)
Record Host := {
  windowDefined : bool;
  elementDefined : bool
}.

(** The keys of [ColorScheme]. *)
Inductive ColorKey :=
| Cstring | Cnumber | Cboolean | Cnull | Cundefined | Cfunction | Csymbol
| Cdate | Cregexp | Ckey | Cbracket | Ccircular | Ctruncated | CmaxDepth
| Creset.

Definition esc : string := String (ascii_of_nat 27) EmptyString.

Definition consoleColors (type : ColorKey) : string :=
  match type with
  | Cstring => esc +:+ "[32m"
  | Cnumber => esc +:+ "[36m"
  | Cboolean => esc +:+ "[35m"
  | Cnull => esc +:+ "[90m"
  | Cundefined => esc +:+ "[90m"
  | Cfunction => esc +:+ "[36m"
  | Csymbol => esc +:+ "[35m"
  | Cdate => esc +:+ "[34m"
  | Cregexp => esc +:+ "[35m"
  | Ckey => esc +:+ "[33m"
  | Cbracket => esc +:+ "[90m"
  | Ccircular => esc +:+ "[31m"
  | Ctruncated => esc +:+ "[90m"
  | CmaxDepth => esc +:+ "[90m"
  | Creset => esc +:+ "[0m"
  end.

Definition nodeEnv : Env :=
  {| isDevelopment := true; isNode := true; isBrowser := false;
     isEdgeRuntime := false |}.

Definition browserEnv : Env :=
  {| isDevelopment := true; isNode := false; isBrowser := true;
     isEdgeRuntime := false |}.

(** [new Logger({})] in an environment [e]. *)
Definition defaults (e : Env) : Logger := {|
  maxDepth := 5;
  maxStringLength := 100 * 100;
  enableCircularHandling := true;
  domElementFormat := Summary;
  prettyPrint := true;
  indentSize := 2;
  useColors := true;
  env := e
|}.

Definition withPrettyPrint (b : bool) (L : Logger) : Logger := {|
  maxDepth := maxDepth L;
  maxStringLength := maxStringLength L;
  enableCircularHandling := enableCircularHandling L;
  domElementFormat := domElementFormat L;
  prettyPrint := b;
  indentSize := indentSize L;
  useColors := useColors L;
  env := env L
|}.

Definition withColors (b : bool) (L : Logger) : Logger := {|
  maxDepth := maxDepth L;
  maxStringLength := maxStringLength L;
  enableCircularHandling := enableCircularHandling L;
  domElementFormat := domElementFormat L;
  prettyPrint := prettyPrint L;
  indentSize := indentSize L;
  useColors := b;
  env := env L
|}.

Definition withMaxStringLength (n : nat) (L : Logger) : Logger := {|
  maxDepth := maxDepth L;
  maxStringLength := n;
  enableCircularHandling := enableCircularHandling L;
  domElementFormat := domElementFormat L;
  prettyPrint := prettyPrint L;
  indentSize := indentSize L;
  useColors := useColors L;
  env := env L
|}.

Definition withDomElementFormat (fmt : DomElementFormat) (L : Logger) : Logger := {|
  maxDepth := maxDepth L;
  maxStringLength := maxStringLength L;
  enableCircularHandling := enableCircularHandling L;
  domElementFormat := fmt;
  prettyPrint := prettyPrint L;
  indentSize := indentSize L;
  useColors := useColors L;
  env := env L
|}.

Definition withCircularHandling (b : bool) (L : Logger) : Logger := {|
  maxDepth := maxDepth L;
  maxStringLength := maxStringLength L;
  enableCircularHandling := b;
  domElementFormat := domElementFormat L;
  prettyPrint := prettyPrint L;
  indentSize := indentSize L;
  useColors := useColors L;
  env := env L
|}.

Section Formatter.

Variable L : Logger.
Variable host : Host.
Variable heap : Heap.

(** The two tests [!element] and [typeof element.tagName !== "string"] of
    the safety check hold of no [Element] instance; the test on the
    environment is the one that can fire. *)
Definition formatDOMElement (element : Element) : string :=
  match domElementFormat L with
  | Disabled => "[DOM Element]"
  | fmt =>
    if negb (isBrowser (env L)) then "[DOM Element]"
    else
      match fmt with
      | Inspect =>
          let attrs := attributeList (attributes element) in
          let kids :=
            if 0 <? children element
            then " (" +:+ natToString (children element) +:+ " children)"
            else EmptyString in
          "<" +:+ toLowerCase (tagName element) +:+ attrs +:+ ">" +:+ kids
      | _ =>
          "<" +:+ toLowerCase (tagName element) +:+ "> with "
            +:+ natToString (length (attributes element)) +:+ " attributes and "
            +:+ natToString (children element) +:+ " children"
      end
  end.

Definition colorizeText (text : string) (type : ColorKey) : string :=
  if negb (useColors L) then text
  else if isNode (env L) && negb (isEdgeRuntime (env L))
  then consoleColors type +:+ text +:+ consoleColors Creset
  else text.

Definition getIndentation (depth : nat) : string :=
  spaces (depth * indentSize L).

(** [this.env.isBrowser && typeof window !== "undefined" &&
     typeof Element !== "undefined" && arg instanceof Element] *)
Definition asElement (o : Obj) : option Element :=
  if isBrowser (env L) && windowDefined host && elementDefined host
  then match o with OElement el => Some el | _ => None end
  else None.

Definition checkCircular (a : addr) : M bool :=
  do has <- seenHas a;
  if enableCircularHandling L && has then ret true
  else run (if enableCircularHandling L then seenSet a else ret tt); ret false.

(** The body of [formatArgument]; [recur] stands for the calls
    [this.formatArgument(item, { depth: depth + 1, seen, ... })] it makes. *)
Definition formatArgumentBody (recur : Value → nat → string → M string)
    (arg : Value) (depth : nat) (indentation : string) : M string :=
    if maxDepth L <? depth
    then ret (colorizeText "[Max Depth Reached]" CmaxDepth)
    else
      match arg with
      | VNull => ret (colorizeText "null" Cnull)
      | VUndefined => ret (colorizeText "undefined" Cundefined)
      | VString s =>
          if maxStringLength L <? String.length s
          then
            let truncated := substring 0 (maxStringLength L) s +:+ "..." in
            let truncatedMsg :=
              colorizeText (" [truncated, " +:+ natToString (String.length s)
                              +:+ " chars total]") Ctruncated in
            ret (colorizeText (dquote +:+ truncated +:+ dquote) Cstring
                   +:+ truncatedMsg)
          else ret (colorizeText (dquote +:+ s +:+ dquote) Cstring)
      | VNumber n => ret (colorizeText (String_number n) Cnumber)
      | VBoolean b => ret (colorizeText (String_boolean b) Cboolean)
      | VSymbol d => ret (colorizeText (String_symbol d) Csymbol)
      | VBigInt z => ret (colorizeText (String_bigint z +:+ "n") Cnumber)
      | VFunction name =>
          ret (colorizeText ("[Function: " +:+ orElse name "anonymous" +:+ "]")
                 Cfunction)
      | VRef a =>
          match asElement (heap a) with
          | Some el => ret (formatDOMElement el)
          | None =>
            match heap a with
            | OError name message stack =>
                ret (name +:+ ": " +:+ message +:+ newline
                       +:+ orElse (default EmptyString stack) EmptyString)
            | ODate iso =>
                do s <- lift (toISOString iso); ret (colorizeText s Cdate)
            | ORegExp text => ret (colorizeText text Cregexp)
            | OArray items =>
                do circular <- checkCircular a;
                if circular : bool
                then ret (colorizeText "[Circular Reference]" Ccircular)
                else
                  match items with
                  | [] => ret (colorizeText "[]" Cbracket)
                  | _ =>
                    if negb (prettyPrint L) then
                      do strs <- mapM (fun item =>
                                   recur item (depth + 1) EmptyString) items;
                      ret (colorizeText "[" Cbracket +:+ join ", " strs
                             +:+ colorizeText "]" Cbracket)
                    else
                      let nextIndent := indentation +:+ getIndentation 1 in
                      do strs <- mapM (fun item =>
                                   do s <- recur item (depth + 1)
                                             nextIndent;
                                   ret (nextIndent +:+ s)) items;
                      ret (colorizeText "[" Cbracket +:+ newline
                             +:+ join ("," +:+ newline) strs +:+ newline
                             +:+ indentation +:+ colorizeText "]" Cbracket)
                  end
            | o =>
                do circular <- checkCircular a;
                if circular : bool
                then ret (colorizeText "[Circular Reference]" Ccircular)
                else
                  tryCatch
                    (do entries <- lift (Object_entries o);
                     match entries with
                     | [] => ret (colorizeText "{}" Cbracket)
                     | _ =>
                       if negb (prettyPrint L) then
                         do strs <- mapM (fun '(key, value) =>
                                      do s <- recur value
                                                (depth + 1) EmptyString;
                                      ret (colorizeText key Ckey +:+ ": " +:+ s))
                                      entries;
                         ret (colorizeText "{" Cbracket +:+ join ", " strs
                                +:+ colorizeText "}" Cbracket)
                       else
                         let nextIndent := indentation +:+ getIndentation 1 in
                         do strs <- mapM (fun '(key, value) =>
                                      do s <- recur value
                                                (depth + 1) nextIndent;
                                      ret (nextIndent +:+ colorizeText key Ckey
                                             +:+ ": " +:+ s))
                                      entries;
                         ret (colorizeText "{" Cbracket +:+ newline
                                +:+ join ("," +:+ newline) strs +:+ newline
                                +:+ indentation +:+ colorizeText "}" Cbracket)
                     end)
                    (fun error =>
                       ret ("[Object: failed to stringify - "
                              +:+ errorMessage error +:+ "]"))
            end
          end
      end.

(** Each activation of [formatArgument] takes one unit of [fuel]. *)
Fixpoint formatArgument (fuel : nat) : Value → nat → string → M string :=
  match fuel with
  | O => fun _ _ _ => outOfFuel
  | S fuel' => formatArgumentBody (formatArgument fuel')
  end.

(** [this.formatArgument(arg)] as [_log] calls it: [options = {}], so depth
    0, a fresh [seen] and an empty indentation. *)
Definition format (arg : Value) : option (Outcome string) :=
  snd <$> formatArgument (S (maxDepth L + 1)) arg 0 EmptyString ∅.

End Formatter.

End Styled.

(** ** Properties of computations in [M] *)

(** The computation yields an outcome (a string or an exception) from every
    state: the recursion budget is enough. *)
Definition defined {A} (m : M A) : Prop :=
  ∀ seen, is_Some (m seen).


(** Whatever [m1] yields, [m2] yields too. *)
Definition refines {A} (m1 m2 : M A) : Prop :=
  ∀ seen r, m1 seen = Some r → m2 seen = Some r.

(** No exception leaves the computation. *)
Definition quiet {A} (m : M A) : Prop :=
  ∀ seen seen' e, m seen ≠ Some (seen', Threw e).

(** Two computations that go through the same states and end alike: both
    out of budget, both with the same exception, or with results related by
    [R]. *)
Definition alike {A} (R : A → A → Prop) (r1 r2 : option (Seen * Outcome A)) : Prop :=
  match r1, r2 with
  | None, None => True
  | Some (s1, Returned a1), Some (s2, Returned a2) => s1 = s2 ∧ R a1 a2
  | Some (s1, Threw e1), Some (s2, Threw e2) => s1 = s2 ∧ e1 = e2
  | _, _ => False
  end.

Definition related {A} (R : A → A → Prop) (m1 m2 : M A) : Prop :=
  ∀ seen, alike R (m1 seen) (m2 seen).

(** The run with circular handling ([mon]) and the run without ([moff]) end
    alike when [mon] starts from a visited set that shares nothing with [X]:
    [mon] adds at most [X] to the set, [moff] leaves its own set as it was. *)
Definition agree {A} (X : gset addr) (mon moff : M A) : Prop :=
  ∀ seen seen0, X ## seen →
    match mon seen with
    | None => moff seen0 = None
    | Some (seen', o) =>
        seen ⊆ seen' ∧ seen' ⊆ seen ∪ X ∧ moff seen0 = Some (seen0, o)
    end.

(** ** Whitespace *)

Definition isWhitespace (c : ascii) : bool :=
  let n := nat_of_ascii c in
  (n =? 32) || ((9 <=? n) && (n <=? 13)).

Fixpoint stripWhitespace (s : string) : string :=
  match s with
  | EmptyString => EmptyString
  | String c s' =>
      if isWhitespace c then stripWhitespace s'
      else String c (stripWhitespace s')
  end.

Definition sameTokens (s1 s2 : string) : Prop :=
  stripWhitespace s1 = stripWhitespace s2.

(** ** Tree-shaped values *)

(** Objects that reach the array branch or the generic object branch of the
    formatter, and the values stored in them. *)
Definition isContainer (o : Obj) : bool :=
  match o with
  | OArray _ | OObject _ | OExotic _ | OElement _ => true
  | OError _ _ _ | ODate _ | ORegExp _ => false
  end.

Definition stored (o : Obj) : list Value :=
  match o with
  | OArray items => items
  | OObject entries => entries.*2
  | OElement el => (ownProperties el).*2
  | _ => []
  end.

(** [treeShaped heap v X]: below [v] no container occurs twice, and [X] is
    the set of the containers that occur.  Errors, dates and patterns may be
    shared. *)
Inductive treeShaped (heap : Heap) : Value → gset addr → Prop :=
| tree_primitive v :
    (∀ a, v ≠ VRef a) → treeShaped heap v ∅
| tree_leaf a :
    isContainer (heap a) = false → treeShaped heap (VRef a) ∅
| tree_container a X :
    isContainer (heap a) = true →
    treeShapedList heap (stored (heap a)) X →
    a ∉ X →
    treeShaped heap (VRef a) ({[a]} ∪ X)
with treeShapedList (heap : Heap) : list Value → gset addr → Prop :=
| tree_nil : treeShapedList heap [] ∅
| tree_cons v vs X Y :
    treeShaped heap v X → treeShapedList heap vs Y → X ## Y →
    treeShapedList heap (v :: vs) (X ∪ Y).

(** ** Rendering the entries of an object *)




(** ** Elements outside a browser *)

(** The generic object that has the own enumerable properties of an
    element. *)
Definition demote (o : Obj) : Obj :=
  match o with
  | OElement el => OObject (ownProperties el)
  | _ => o
  end.

(** ** Stores used in the statements *)



(** [n] copies of [s], one after the other. *)
Fixpoint copies (n : nat) (s : string) : string :=
  match n with
  | O => EmptyString
  | S n' => s +:+ copies n' s
  end.

Definition num (z : Z) : Value := VNumber (NumInt z).

(** 0: [{a: 1, b: [1, 2, 3]}]; 2: [x = {}; x.self = x];
    3: [new Date(NaN)]; 4: [{when: new Date(NaN)}]; 5: [[o, o]] with
    6: [o = {}]; 7: a [<DIV id="x">] with two children; 8: an object with a
    throwing getter; 9: [[new Date(NaN)]]. *)
Definition sample : Heap :=
  fun a =>
    match a with
    | 0 => OObject [("a", num 1); ("b", VRef 1)]
    | 1 => OArray [num 1; num 2; num 3]
    | 2 => OObject [("self", VRef 2)]
    | 3 => ODate None
    | 4 => OObject [("when", VRef 3)]
    | 5 => OArray [VRef 6; VRef 6]
    | 6 => OObject []
    | 7 => OElement {| tagName := "DIV"; attributes := [("id", "x")];
                       children := 2; ownProperties := [] |}
    | 8 => OExotic (ThrownError "boom")
    | _ => OArray [VRef 3]
    end.

Definition noWindow : Plain.Host :=
  {| Plain.windowDefined := false; Plain.windowElement := false |}.

Definition nodeHost : Styled.Host :=
  {| Styled.windowDefined := false; Styled.elementDefined := false |}.

Definition browserHost : Styled.Host :=
  {| Styled.windowDefined := true; Styled.elementDefined := true |}.

(** Compact output without colours, the other options at their defaults. *)
Definition compact (e : Styled.Env) : Styled.Logger :=
  Styled.withColors false (Styled.withPrettyPrint false (Styled.defaults e)).

Definition plainWithCircularHandling (b : bool) (L : Plain.Logger) : Plain.Logger := {|
  Plain.maxDepth := Plain.maxDepth L;
  Plain.maxStringLength := Plain.maxStringLength L;
  Plain.enableCircularHandling := b;
  Plain.domElementFormat := Plain.domElementFormat L
|}.

(** * The logger around the formatter *)

(** ** The globals of the host *)

Module Runtime.

(** [process.env], when it is an object: the two variables the logger
    reads. *)
Record EnvVars := {
  NEXT_RUNTIME : option string;
  NODE_ENV : option string
}.

(** [process]: [env] is [None] when [process.env] is not an object;
    [versions] is [None] when [process.versions] is not a non-null object,
    and holds [process.versions.node] otherwise. *)
Record Process := {
  env : option EnvVars;
  versions : option (option string)
}.

(** [window]: [hostname] is [window.location.hostname], [None] when it is
    missing. *)
Record Window := {
  hostname : option string
}.

Record Globals := {
  process : option Process;
  window : option Window;
  elementDefined : bool
}.

(** [s.includes(needle)] *)
Definition includes (s needle : string) : bool :=
  match String.index 0 needle s with
  | Some _ => true
  | None => false
  end.

(** [x === s] on a variable that may be undefined *)
Definition isString (x : option string) (s : string) : bool :=
  match x with
  | Some t => String.eqb t s
  | None => false
  end.

(** [process.env.NODE_ENV !== "production"] *)
Definition notProduction (vars : EnvVars) : bool :=
  negb (isString (NODE_ENV vars) "production").

(** The globals [formatArgument] tests at each call. *)
Definition styledHost (g : Globals) : Styled.Host :=
  {| Styled.windowDefined := bool_decide (is_Some (window g));
     Styled.elementDefined := elementDefined g |}.

End Runtime.

(** ** [getEnvironment] of [src/index.ts] *)

Module PlainRuntime.

Import Runtime.

Record Env := {
  isDevelopment : bool;
  isNode : bool
}.

Definition referenceError (name : string) : JsThrown :=
  ThrownError (name +:+ " is not defined").

Definition typeError (property : string) : JsThrown :=
  ThrownError ("Cannot read properties of undefined (reading '" +:+ property
                 +:+ "')").

(** [process.env.NODE_ENV !== "production"], with no test on [process] *)
Definition readNodeEnv (g : Globals) : Outcome bool :=
  match process g with
  | None => Threw (referenceError "process")
  | Some p =>
      match env p with
      | None => Threw (typeError "NODE_ENV")
      | Some vars => Returned (notProduction vars)
      end
  end.

(** [window.location.hostname.includes("production")], with no test on
    [window] *)
Definition readHostname (g : Globals) : Outcome bool :=
  match window g with
  | None => Threw (referenceError "window")
  | Some w =>
      match hostname w with
      | None => Threw (typeError "includes")
      | Some h => Returned (includes h "production")
      end
  end.

Definition getEnvironment (g : Globals) : Outcome Env :=
  let isNode :=
    match process g with
    | Some p =>
        match versions p with
        | Some (Some _) => true
        | _ => false
        end
    | None => false
    end in
  if isNode then
    match readNodeEnv g with
    | Returned dev => Returned {| isDevelopment := dev; isNode := isNode |}
    | Threw e => Threw e
    end
  else
    match readHostname g with
    | Threw e => Threw e
    | Returned true => Returned {| isDevelopment := false; isNode := isNode |}
    | Returned false =>
        match readNodeEnv g with
        | Returned dev => Returned {| isDevelopment := dev; isNode := isNode |}
        | Threw e => Threw e
        end
    end.

End PlainRuntime.

(** ** The logger of the styled revision *)

Module Logging.

Import Runtime.

Inductive LogLevel := ERROR | WARN | INFO | DEBUG.

(** The values of the enumeration. *)
Definition levelValue (l : LogLevel) : nat :=
  match l with
  | ERROR => 0
  | WARN => 1
  | INFO => 2
  | DEBUG => 3
  end.

(** ["debug" | "info" | "warn" | "error" | "log"] *)
Inductive Method := Mdebug | Minfo | Mwarn | Merror | Mlog.

Definition methodName (m : Method) : string :=
  match m with
  | Mdebug => "debug"
  | Minfo => "info"
  | Mwarn => "warn"
  | Merror => "error"
  | Mlog => "log"
  end.

Definition levelPriority (m : Method) : LogLevel :=
  match m with
  | Merror => ERROR
  | Mwarn => WARN
  | Minfo => INFO
  | Mlog => INFO
  | Mdebug => DEBUG
  end.

Module Options.

(** [LoggerOptions]: every field may be left out. *)
Record LoggerOptions := {
  showInProd : option bool;
  includeTimestamp : option bool;
  maxDepth : option nat;
  maxStringLength : option nat;
  enableCircularHandling : option bool;
  domElementFormat : option DomElementFormat;
  prettyPrint : option bool;
  indentSize : option nat;
  colors : option bool;
  logLevel : option LogLevel;
  namespace : option string;
  enabled : option bool
}.

(** [{}] *)
Definition none : LoggerOptions := {|
  showInProd := None; includeTimestamp := None; maxDepth := None;
  maxStringLength := None; enableCircularHandling := None;
  domElementFormat := None; prettyPrint := None; indentSize := None;
  colors := None; logLevel := None; namespace := None; enabled := None
|}.

End Options.

(** The fields of [Logger]: those the formatter reads ([formatter]) and
    those of the logging methods. *)
Record Logger := {
  formatter : Styled.Logger;
  showInProd : bool;
  includeTimestamp : bool;
  logLevel : LogLevel;
  namespace : string;
  enabled : bool
}.

(** [getEnvironment]: the edge runtime first, then the browser, then
    Node.js. *)
Definition getEnvironment (g : Globals) : Styled.Env :=
  let envIsDevelopment (p : Process) :=
    match env p with
    | Some vars => notProduction vars
    | None => false
    end in
  let edge :=
    match process g with
    | Some p =>
        match env p with
        | Some vars => isString (NEXT_RUNTIME vars) "edge"
        | None => false
        end
    | None => false
    end in
  if edge then
    {| Styled.isDevelopment :=
         match process g with
         | Some p => envIsDevelopment p
         | None => true
         end;
       Styled.isNode := false;
       Styled.isBrowser := false;
       Styled.isEdgeRuntime := true |}
  else
    match window g with
    | Some w =>
        {| Styled.isDevelopment :=
             negb (match hostname w with
                   | Some h => includes h "production"
                   | None => false
                   end)
             && match process g with
                | None => true
                | Some p => envIsDevelopment p
                end;
           Styled.isNode := false;
           Styled.isBrowser := true;
           Styled.isEdgeRuntime := false |}
    | None =>
        match process g with
        | Some p =>
            {| Styled.isDevelopment := envIsDevelopment p;
               Styled.isNode := bool_decide (is_Some (versions p));
               Styled.isBrowser := false;
               Styled.isEdgeRuntime := false |}
        | None =>
            {| Styled.isDevelopment := true;
               Styled.isNode := false;
               Styled.isBrowser := false;
               Styled.isEdgeRuntime := false |}
        end
    end.

(** [new Logger(options)] *)
Definition construct (options : Options.LoggerOptions) (g : Globals) : Logger := {|
  formatter := {|
    Styled.maxDepth := default 5 (Options.maxDepth options);
    Styled.maxStringLength := default (100 * 100) (Options.maxStringLength options);
    Styled.enableCircularHandling :=
      default true (Options.enableCircularHandling options);
    Styled.domElementFormat := default Summary (Options.domElementFormat options);
    Styled.prettyPrint := default true (Options.prettyPrint options);
    Styled.indentSize := default 2 (Options.indentSize options);
    Styled.useColors := default true (Options.colors options);
    Styled.env := getEnvironment g
  |};
  showInProd := default false (Options.showInProd options);
  includeTimestamp := default true (Options.includeTimestamp options);
  logLevel := default INFO (Options.logLevel options);
  namespace := default EmptyString (Options.namespace options);
  enabled := default true (Options.enabled options)
|}.

Definition setLogLevel (level : LogLevel) (I : Logger) : Logger := {|
  formatter := formatter I; showInProd := showInProd I;
  includeTimestamp := includeTimestamp I; logLevel := level;
  namespace := namespace I; enabled := enabled I
|}.

Definition setEnabled (b : bool) (I : Logger) : Logger := {|
  formatter := formatter I; showInProd := showInProd I;
  includeTimestamp := includeTimestamp I; logLevel := logLevel I;
  namespace := namespace I; enabled := b
|}.

(** What [getCallerInfo] returns; the stack trace it parses is outside the
    model. *)
Record CallerInfo := {
  file : string;
  line : string;
  column : string
}.

(** [s.toUpperCase()], on the ASCII letters *)
Definition upperAscii (c : ascii) : ascii :=
  let n := nat_of_ascii c in
  if (97 <=? n) && (n <=? 122) then ascii_of_nat (n - 32) else c.

Fixpoint toUpperCase (s : string) : string :=
  match s with
  | EmptyString => EmptyString
  | String c s' => String (upperAscii c) (toUpperCase s')
  end.

(** [Boolean(s)] on a string *)
Definition truthy (s : string) : bool :=
  match s with
  | EmptyString => false
  | _ => true
  end.

(** [formatMetadata(level)]; [caller] is the result of [getCallerInfo()] and
    [now] that of [new Date().toISOString()]. *)
Definition formatMetadata (I : Logger) (caller : CallerInfo) (now : string)
    (level : string) : list string :=
  let timestamp := if includeTimestamp I then now else EmptyString in
  let namespaceStr :=
    if truthy (namespace I) then "[" +:+ namespace I +:+ "]" else EmptyString in
  List.filter truthy
    [ namespaceStr;
      "[" +:+ toUpperCase level +:+ "]";
      if includeTimestamp I then "[" +:+ timestamp +:+ "]" else EmptyString;
      "[" +:+ file caller +:+ ":" +:+ line caller +:+ "]" ].

(** The console: the calls made on it, in order. *)
Inductive ConsoleArg :=
| Text (s : string)
| Raw (v : Value).

Inductive ConsoleMethod :=
| Clevel (m : Method)
| CgroupCollapsed
| Cgroup
| CgroupEnd
| Ctime
| CtimeEnd.

Record ConsoleCall := {
  method : ConsoleMethod;
  arguments : list ConsoleArg
}.

(** [typeof console.group === "function"] and the like. *)
Record Console := {
  hasGroup : bool;
  hasGroupEnd : bool;
  hasTime : bool;
  hasTimeEnd : bool
}.

Definition styles (m : Method) : string :=
  match m with
  | Mlog => "color: #0099cc"
  | Mdebug => "color: #0099cc"
  | Minfo => "color: #00cc00"
  | Mwarn => "color: #cccc00"
  | Merror => "color: #cc0000"
  end.

Definition colors (m : Method) : string :=
  match m with
  | Mlog => Styled.esc +:+ "[36m"
  | Mdebug => Styled.esc +:+ "[36m"
  | Minfo => Styled.esc +:+ "[32m"
  | Mwarn => Styled.esc +:+ "[33m"
  | Merror => Styled.esc +:+ "[31m"
  end.

Definition colorsReset : string := Styled.esc +:+ "[0m".

Section Methods.

Variable I : Logger.
Variable g : Globals.
Variable console : Console.
Variable heap : Heap.

(** [args.map((arg) => this.formatArgument(arg))]: each call starts at
    depth 0 with a [seen] of its own; the first exception ends the loop. *)
Fixpoint formatEach (args : list Value) : option (Outcome (list string)) :=
  match args with
  | [] => Some (Returned [])
  | arg :: rest =>
      match Styled.format (formatter I) (styledHost g) heap arg with
      | None => None
      | Some (Threw e) => Some (Threw e)
      | Some (Returned s) =>
          match formatEach rest with
          | None => None
          | Some (Threw e) => Some (Threw e)
          | Some (Returned strs) => Some (Returned (s :: strs))
          end
      end
  end.

(** [arg instanceof Element || (typeof arg === "object" && arg !== null)] *)
Definition isObject (arg : Value) : bool :=
  match arg with
  | VRef _ => true
  | _ => false
  end.

Definition developmentOrShown : bool :=
  Styled.isDevelopment (Styled.env (formatter I)) || showInProd I.

(** The calls that follow once every argument is formatted; an exception
    of the formatter leaves the method before any call on the console. *)
Definition withFormatted (args : list Value)
    (calls : list string → list ConsoleCall) :
    option (Outcome (list ConsoleCall)) :=
  match formatEach args with
  | None => None
  | Some (Threw error) => Some (Threw error)
  | Some (Returned formattedArgs) => Some (Returned (calls formattedArgs))
  end.

(** [_log(level, ...args)]: the calls made on the console, or the exception
    that leaves the method. *)
Definition _log (caller : CallerInfo) (now : string) (level : Method)
    (args : list Value) : option (Outcome (list ConsoleCall)) :=
  if negb (enabled I) then Some (Returned [])
  else if levelValue (logLevel I) <? levelValue (levelPriority level)
  then Some (Returned [])
  else if negb developmentOrShown then Some (Returned [])
  else
    let e := Styled.env (formatter I) in
    let metadata := formatMetadata I caller now (methodName level) in
    if Styled.isBrowser e && negb (Styled.isNode e) then
      let rawObjects :=
        if Styled.prettyPrint (formatter I) then List.filter isObject args
        else [] in
      withFormatted args (fun formattedArgs =>
        {| method := Clevel level;
           arguments :=
             [ Text ("%c" +:+ join " " (metadata ++ formattedArgs));
               Text (styles level) ] |}
        :: if Styled.prettyPrint (formatter I) && (0 <? length rawObjects)
           then
             {| method := CgroupCollapsed;
                arguments := [Text "Raw Objects (for inspection)"] |}
             :: map (fun obj =>
                       {| method := Clevel level; arguments := [Raw obj] |})
                  rawObjects
             ++ [ {| method := CgroupEnd; arguments := [] |} ]
           else [])
    else if Styled.isEdgeRuntime e || negb (Styled.useColors (formatter I))
    then
      withFormatted args (fun formattedArgs =>
        [ {| method := Clevel level;
             arguments := map Text (metadata ++ formattedArgs) |} ])
    else
      withFormatted args (fun formattedArgs =>
        [ {| method := Clevel level;
             arguments :=
               Text (colors level)
               :: map Text (metadata ++ formattedArgs)
               ++ [Text colorsReset] |} ]).

Definition group (label : string) : list ConsoleCall :=
  if negb developmentOrShown then []
  else if hasGroup console
  then [ {| method := Cgroup; arguments := [Text label] |} ]
  else [ {| method := Clevel Mlog;
            arguments := [Text ("=== GROUP START: " +:+ label +:+ " ===")] |} ].

Definition groupEnd : list ConsoleCall :=
  if negb developmentOrShown then []
  else if hasGroupEnd console
  then [ {| method := CgroupEnd; arguments := [] |} ]
  else [ {| method := Clevel Mlog; arguments := [Text "=== GROUP END ==="] |} ].

Definition time (label : string) : list ConsoleCall :=
  if negb developmentOrShown then []
  else if hasTime console
  then [ {| method := Ctime; arguments := [Text label] |} ]
  else [].

Definition timeEnd (label : string) : list ConsoleCall :=
  if negb developmentOrShown then []
  else if hasTimeEnd console
  then [ {| method := CtimeEnd; arguments := [Text label] |} ]
  else [].

End Methods.

End Logging.

(** ** Further properties of the formatter *)

(** The computation neither reads nor writes the visited set: from any two
    sets it ends alike and leaves each set as it was. *)
Definition stateless {A} (m : M A) : Prop :=
  ∀ seen other,
    match m seen with
    | None => m other = None
    | Some (seen', o) => seen' = seen ∧ m other = Some (other, o)
    end.

(** Every identity the computation enters in the visited set satisfies
    [P]. *)
Definition adds {A} (P : addr → Prop) (m : M A) : Prop :=
  ∀ seen seen' o, m seen = Some (seen', o) → ∀ a, a ∈ seen' → a ∈ seen ∨ P a.

(** [tinted plain coloured]: [coloured] is [plain] with some of its parts
    put between a colour code of the console and the reset code. *)
Inductive tinted : string → string → Prop :=
| tinted_same s : tinted s s
| tinted_append a a' b b' :
    tinted a a' → tinted b b' → tinted (a +:+ b) (a' +:+ b')
| tinted_wrap type s s' :
    tinted s s' →
    tinted s (Styled.consoleColors type +:+ s' +:+ Styled.consoleColors Styled.Creset).




(** [process.env.NEXT_RUNTIME === "edge"] holds. *)
Definition edgeRuntime (g : Runtime.Globals) : Prop :=
  ∃ p vars,
    Runtime.process g = Some p ∧ Runtime.env p = Some vars
    ∧ Runtime.NEXT_RUNTIME vars = Some "edge".

(** [L] with another [indentSize]. *)
Definition styledWithIndentSize (n : nat) (L : Styled.Logger) : Styled.Logger := {|
  Styled.maxDepth := Styled.maxDepth L;
  Styled.maxStringLength := Styled.maxStringLength L;
  Styled.enableCircularHandling := Styled.enableCircularHandling L;
  Styled.domElementFormat := Styled.domElementFormat L;
  Styled.prettyPrint := Styled.prettyPrint L;
  Styled.indentSize := n;
  Styled.useColors := Styled.useColors L;
  Styled.env := Styled.env L
|}.

(** * Theorems *)

(** ** The monad *)

Section Monad.

Context {A B : Type}.

Lemma bind_Some (m : M A) (k : A → M B) seen r :
  bind m k seen = Some r →
  ∃ seen1 o, m seen = Some (seen1, o) ∧
    match o with
    | Threw e => r = (seen1, Threw e)
    | Returned a => k a seen1 = Some r
    end.
Proof.
  unfold bind. destruct (m seen) as [[seen1 [a|e]]|]; intros H; try discriminate.
  - exists seen1, (Returned a). auto.
  - exists seen1, (Threw e). split; congruence.
Qed.

Lemma defined_ret (a : A) : defined (ret a).
Proof. intros seen. eexists. reflexivity. Qed.

Lemma defined_lift (o : Outcome A) : defined (lift o).
Proof. intros seen. eexists. reflexivity. Qed.

Lemma defined_bind (m : M A) (k : A → M B) :
  defined m → (∀ a, defined (k a)) → defined (bind m k).
Proof.
  intros Hm Hk seen. unfold bind.
  destruct (Hm seen) as [[seen1 [a|e]] ->]; [apply Hk | eexists; reflexivity].
Qed.

Lemma defined_tryCatch (m : M A) (h : JsThrown → M A) :
  defined m → (∀ e, defined (h e)) → defined (tryCatch m h).
Proof.
  intros Hm Hh seen. unfold tryCatch.
  destruct (Hm seen) as [[seen1 [a|e]] ->]; [eexists; reflexivity | apply Hh].
Qed.





Lemma refines_refl (m : M A) : refines m m.
Proof. intros seen r H. exact H. Qed.

Lemma refines_bind (m m' : M A) (k k' : A → M B) :
  refines m m' → (∀ a, refines (k a) (k' a)) → refines (bind m k) (bind m' k').
Proof.
  intros Hm Hk seen r H.
  apply bind_Some in H as (seen1 & o & H1 & H2).
  unfold bind. rewrite (Hm _ _ H1). destruct o; [apply Hk, H2 | congruence].
Qed.

Lemma refines_tryCatch (m m' : M A) (h : JsThrown → M A) :
  refines m m' → refines (tryCatch m h) (tryCatch m' h).
Proof.
  intros Hm seen r. unfold tryCatch.
  destruct (m seen) as [[seen1 o]|] eqn:E; [|discriminate].
  rewrite (Hm _ _ E). auto.
Qed.

Lemma quiet_ret (a : A) : quiet (ret a).
Proof. intros seen seen' e. discriminate. Qed.

Lemma quiet_bind (m : M A) (k : A → M B) :
  quiet m → (∀ a, quiet (k a)) → quiet (bind m k).
Proof.
  intros Hm Hk seen seen' e H.
  apply bind_Some in H as (seen1 & [a|e'] & H1 & H2).
  - exact (Hk _ _ _ _ H2).
  - exact (Hm _ _ _ H1).
Qed.

Lemma quiet_tryCatch (m : M A) (h : JsThrown → M A) :
  (∀ e, quiet (h e)) → quiet (tryCatch m h).
Proof.
  intros Hh seen seen' e. unfold tryCatch.
  destruct (m seen) as [[seen1 [a|e']]|]; try discriminate. apply Hh.
Qed.

End Monad.

Lemma defined_mapM {A B} (f : A → M B) xs :
  (∀ x, defined (f x)) → defined (mapM f xs).
Proof.
  intros Hf. induction xs as [|x xs IH]; simpl.
  - intros seen. eexists. reflexivity.
  - apply defined_bind; [apply Hf|]. intros y.
    apply defined_bind; [exact IH|]. intros ys seen. eexists. reflexivity.
Qed.


Lemma refines_mapM {A B} (f f' : A → M B) xs :
  (∀ x, refines (f x) (f' x)) → refines (mapM f xs) (mapM f' xs).
Proof.
  intros Hf. induction xs as [|x xs IH]; simpl; [apply refines_refl|].
  apply refines_bind; [apply Hf|]. intros y.
  apply refines_bind; [exact IH|]. intros ys. apply refines_refl.
Qed.

Lemma quiet_mapM {A B} (f : A → M B) xs :
  (∀ x, quiet (f x)) → quiet (mapM f xs).
Proof.
  intros Hf. induction xs as [|x xs IH]; simpl; [apply quiet_ret|].
  apply quiet_bind; [apply Hf|]. intros y.
  apply quiet_bind; [exact IH|]. intros ys. discriminate.
Qed.

(** Case analysis on the tests of a formatter body: the goal is a property
    of a computation, [leaf] closes the atomic computations and [node]
    descends through [bind], [tryCatch] and [mapM]. *)
Ltac descend leaf node :=
  repeat first
    [ leaf
    | node
    | match goal with
      | |- ∀ _, _ => intro
      | |- context [if ?b then _ else _] => destruct b
      | |- context [match ?x with _ => _ end] => destruct x
      end ].

(** ** [src/index.ts]: budget, visited set, exceptions *)

Section PlainFacts.

Variable L : Plain.Logger.
Variable host : Plain.Host.
Variable heap : Heap.

Local Abbreviation body := (Plain.formatArgumentBody L host heap).
Local Abbreviation formatArgument := (Plain.formatArgument L host heap).

Lemma plain_checkCircular_defined a : defined (Plain.checkCircular L a).
Proof.
  intros seen. unfold Plain.checkCircular, bind, seenHas, seenSet, ret.
  destruct (Plain.enableCircularHandling L), (bool_decide (a ∈ seen));
    eexists; reflexivity.
Qed.


Lemma plain_checkCircular_quiet a : quiet (Plain.checkCircular L a).
Proof.
  intros seen seen' o. unfold Plain.checkCircular, bind, seenHas, seenSet, ret.
  destruct (Plain.enableCircularHandling L), (bool_decide (a ∈ seen));
    discriminate.
Qed.

Lemma plain_body_defined recur arg depth :
  (depth ≤ Plain.maxDepth L → ∀ v, defined (recur v (depth + 1))) →
  defined (body recur arg depth).
Proof.
  intros Hrec. unfold Plain.formatArgumentBody.
  destruct (Plain.maxDepth L <? depth) eqn:Hd; [apply defined_ret|].
  apply Nat.ltb_ge in Hd. specialize (Hrec Hd).
  descend
    ltac:(first [ apply defined_ret | apply defined_lift | apply Hrec
                | apply plain_checkCircular_defined ])
    ltac:(first [ apply defined_bind | apply defined_tryCatch
                | apply defined_mapM ]).
Qed.

Lemma plain_formatArgument_defined fuel arg depth :
  1 ≤ fuel → Plain.maxDepth L + 2 ≤ fuel + depth →
  defined (formatArgument fuel arg depth).
Proof.
  revert arg depth.
  induction fuel as [|fuel IH]; intros arg depth Hpos Hfuel; [lia|]. simpl.
  apply plain_body_defined. intros Hd v. apply IH; lia.
Qed.



Lemma plain_body_refines recur recur' arg depth :
  (∀ v d, refines (recur v d) (recur' v d)) →
  refines (body recur arg depth) (body recur' arg depth).
Proof.
  intros Hrec. unfold Plain.formatArgumentBody.
  descend
    ltac:(first [ apply Hrec | apply refines_refl ])
    ltac:(first [ apply refines_bind | apply refines_tryCatch
                | apply refines_mapM ]).
Qed.

Lemma plain_formatArgument_fuel fuel fuel' arg depth :
  fuel ≤ fuel' →
  refines (formatArgument fuel arg depth) (formatArgument fuel' arg depth).
Proof.
  revert fuel' arg depth.
  induction fuel as [|fuel IH]; intros fuel' arg depth Hle; simpl.
  - intros seen r H. discriminate.
  - destruct fuel' as [|fuel']; [lia|]. simpl.
    apply plain_body_refines. intros v d. apply IH. lia.
Qed.

End PlainFacts.

(** ** The styled revision: budget, visited set, exceptions *)

Section StyledFacts.

Variable L : Styled.Logger.
Variable host : Styled.Host.
Variable heap : Heap.

Local Abbreviation body := (Styled.formatArgumentBody L host heap).
Local Abbreviation formatArgument := (Styled.formatArgument L host heap).

Lemma styled_checkCircular_defined a : defined (Styled.checkCircular L a).
Proof.
  intros seen. unfold Styled.checkCircular, bind, seenHas, seenSet, ret.
  destruct (Styled.enableCircularHandling L), (bool_decide (a ∈ seen));
    eexists; reflexivity.
Qed.


Lemma styled_checkCircular_quiet a : quiet (Styled.checkCircular L a).
Proof.
  intros seen seen' o. unfold Styled.checkCircular, bind, seenHas, seenSet, ret.
  destruct (Styled.enableCircularHandling L), (bool_decide (a ∈ seen));
    discriminate.
Qed.

Lemma styled_body_defined recur arg depth ind :
  (depth ≤ Styled.maxDepth L → ∀ v i, defined (recur v (depth + 1) i)) →
  defined (body recur arg depth ind).
Proof.
  intros Hrec. unfold Styled.formatArgumentBody.
  destruct (Styled.maxDepth L <? depth) eqn:Hd; [apply defined_ret|].
  apply Nat.ltb_ge in Hd. specialize (Hrec Hd).
  descend
    ltac:(first [ apply defined_ret | apply defined_lift | apply Hrec
                | apply styled_checkCircular_defined ])
    ltac:(first [ apply defined_bind | apply defined_tryCatch
                | apply defined_mapM ]).
Qed.

Lemma styled_formatArgument_defined fuel arg depth ind :
  1 ≤ fuel → Styled.maxDepth L + 2 ≤ fuel + depth →
  defined (formatArgument fuel arg depth ind).
Proof.
  revert arg depth ind.
  induction fuel as [|fuel IH]; intros arg depth ind Hpos Hfuel; [lia|]. simpl.
  apply styled_body_defined. intros Hd v i. apply IH; lia.
Qed.



Lemma styled_body_refines recur recur' arg depth ind :
  (∀ v d i, refines (recur v d i) (recur' v d i)) →
  refines (body recur arg depth ind) (body recur' arg depth ind).
Proof.
  intros Hrec. unfold Styled.formatArgumentBody.
  descend
    ltac:(first [ apply Hrec | apply refines_refl ])
    ltac:(first [ apply refines_bind | apply refines_tryCatch
                | apply refines_mapM ]).
Qed.

Lemma styled_formatArgument_fuel fuel fuel' arg depth ind :
  fuel ≤ fuel' →
  refines (formatArgument fuel arg depth ind) (formatArgument fuel' arg depth ind).
Proof.
  revert fuel' arg depth ind.
  induction fuel as [|fuel IH]; intros fuel' arg depth ind Hle; simpl.
  - intros seen r H. discriminate.
  - destruct fuel' as [|fuel']; [lia|]. simpl.
    apply styled_body_refines. intros v d i. apply IH. lia.
Qed.

End StyledFacts.

(** ** Computations that end alike *)

Lemma related_ret {A} (R : A → A → Prop) a b :
  R a b → related R (ret a) (ret b).
Proof. intros H seen. simpl. auto. Qed.

Lemma related_refl {A} (m : M A) : related eq m m.
Proof. intros seen. unfold alike. destruct (m seen) as [[s [a|e]]|]; auto. Qed.

Lemma related_bind {A B} (R : A → A → Prop) (R' : B → B → Prop)
    (m1 m2 : M A) (k1 k2 : A → M B) :
  related R m1 m2 → (∀ a b, R a b → related R' (k1 a) (k2 b)) →
  related R' (bind m1 k1) (bind m2 k2).
Proof.
  intros Hm Hk seen. specialize (Hm seen). unfold bind, alike in *.
  destruct (m1 seen) as [[s1 [a1|e1]]|], (m2 seen) as [[s2 [a2|e2]]|];
    try contradiction; auto.
  destruct Hm as [<- Hm]. apply (Hk _ _ Hm).
Qed.


Lemma related_tryCatch {A} (R : A → A → Prop) (m1 m2 : M A) h1 h2 :
  related R m1 m2 → (∀ e, related R (h1 e) (h2 e)) →
  related R (tryCatch m1 h1) (tryCatch m2 h2).
Proof.
  intros Hm Hh seen. specialize (Hm seen). unfold tryCatch, alike in *.
  destruct (m1 seen) as [[s1 [a1|e1]]|], (m2 seen) as [[s2 [a2|e2]]|];
    try contradiction; auto.
  destruct Hm as [<- <-]. apply Hh.
Qed.

Lemma related_mapM {A B} (R : B → B → Prop) (f1 f2 : A → M B) xs :
  (∀ x, related R (f1 x) (f2 x)) →
  related (Forall2 R) (mapM f1 xs) (mapM f2 xs).
Proof.
  intros Hf. induction xs as [|x xs IH]; simpl.
  - apply related_ret. constructor.
  - eapply related_bind; [apply Hf|]. intros y1 y2 Hy.
    eapply related_bind; [exact IH|]. intros ys1 ys2 Hys.
    apply related_ret. constructor; assumption.
Qed.

Lemma related_eq {A} (m1 m2 : M A) seen :
  related eq m1 m2 → m1 seen = m2 seen.
Proof.
  intros H. specialize (H seen). unfold alike in H.
  destruct (m1 seen) as [[s1 [a1|e1]]|], (m2 seen) as [[s2 [a2|e2]]|];
    try contradiction; auto; destruct H; congruence.
Qed.

(** ** Strings *)

Lemma append_cons x (a b : string) : String x a +:+ b = String x (a +:+ b).
Proof. reflexivity. Qed.

Lemma append_empty_l (a : string) : EmptyString +:+ a = a.
Proof. reflexivity. Qed.



Lemma strip_append (a b : string) :
  stripWhitespace (a +:+ b) = stripWhitespace a +:+ stripWhitespace b.
Proof.
  induction a as [|x a IH]; [reflexivity|]. rewrite append_cons. simpl.
  destruct (isWhitespace x); [exact IH|]. by rewrite append_cons, IH.
Qed.



Lemma strip_consoleColors k :
  stripWhitespace (Styled.consoleColors k) = Styled.consoleColors k.
Proof. destruct k; reflexivity. Qed.

Lemma strip_colorizeText L t k :
  stripWhitespace (Styled.colorizeText L t k)
  = Styled.colorizeText L (stripWhitespace t) k.
Proof.
  unfold Styled.colorizeText.
  destruct (negb _); [reflexivity|]. destruct (_ && _); [|reflexivity].
  by rewrite !strip_append, !strip_consoleColors.
Qed.

Lemma sameTokens_colorizeText L t1 t2 k :
  sameTokens t1 t2 →
  sameTokens (Styled.colorizeText L t1 k) (Styled.colorizeText L t2 k).
Proof. unfold sameTokens. rewrite !strip_colorizeText. by intros ->. Qed.



(** ** Pretty-printed and inline output carry the same tokens *)


Section Modes.

Variable L : Styled.Logger.
Variable host : Styled.Host.
Variable heap : Heap.

Local Abbreviation pretty := (Styled.withPrettyPrint true L).
Local Abbreviation inline := (Styled.withPrettyPrint false L).

Ltac same_logger :=
  change (Styled.maxDepth (Styled.withPrettyPrint _ L)) with (Styled.maxDepth L);
  change (Styled.maxStringLength (Styled.withPrettyPrint _ L))
    with (Styled.maxStringLength L);
  change (Styled.colorizeText (Styled.withPrettyPrint _ L))
    with (Styled.colorizeText L);
  change (Styled.checkCircular (Styled.withPrettyPrint _ L))
    with (Styled.checkCircular L);
  change (Styled.asElement (Styled.withPrettyPrint _ L))
    with (Styled.asElement L);
  change (Styled.formatDOMElement (Styled.withPrettyPrint _ L))
    with (Styled.formatDOMElement L);
  change (Styled.getIndentation (Styled.withPrettyPrint _ L))
    with (Styled.getIndentation L);
  cbn [Styled.prettyPrint Styled.withPrettyPrint negb].






End Modes.

(** ** Circular handling on tree-shaped values *)

Lemma agree_ret {A} X (a : A) : agree X (ret a) (ret a).
Proof. intros seen seen0 _. simpl. split_and!; [done | set_solver | done]. Qed.

Lemma agree_lift {A} X (o : Outcome A) : agree X (lift o) (lift o).
Proof. intros seen seen0 _. simpl. split_and!; [done | set_solver | done]. Qed.

Lemma agree_bind {A B} X Y Z (m1 m2 : M A) (k1 k2 : A → M B) :
  agree X m1 m2 → (∀ a, agree Y (k1 a) (k2 a)) → X ## Y → X ∪ Y ⊆ Z →
  agree Z (bind m1 k1) (bind m2 k2).
Proof.
  intros Hm Hk Hdisj Hsub seen seen0 Hseen.
  specialize (Hm seen seen0). unfold bind.
  destruct (m1 seen) as [[seen1 [a|e]]|].
  - destruct Hm as (H1 & H2 & ->); [set_solver|].
    specialize (Hk a seen1 seen0).
    destruct (k1 a seen1) as [[seen2 o]|].
    + destruct Hk as (H3 & H4 & ->); [set_solver|].
      split_and!; [set_solver | set_solver | done].
    + apply Hk. set_solver.
  - destruct Hm as (H1 & H2 & ->); [set_solver|].
    split_and!; [set_solver | set_solver | done].
  - rewrite Hm; [done | set_solver].
Qed.

Lemma agree_tryCatch {A} X (m1 m2 : M A) (h : JsThrown → A) :
  agree X m1 m2 →
  agree X (tryCatch m1 (fun e => ret (h e))) (tryCatch m2 (fun e => ret (h e))).
Proof.
  intros Hm seen seen0 Hseen. specialize (Hm seen seen0 Hseen).
  unfold tryCatch.
  destruct (m1 seen) as [[seen1 [a|e]]|].
  - destruct Hm as (H1 & H2 & ->). done.
  - destruct Hm as (H1 & H2 & ->). done.
  - by rewrite Hm.
Qed.

Lemma agree_mapM {A B} heap (val : A → Value) (f1 f2 : A → M B) xs Y :
  (∀ x X, treeShaped heap (val x) X → agree X (f1 x) (f2 x)) →
  treeShapedList heap (val <$> xs) Y →
  agree Y (mapM f1 xs) (mapM f2 xs).
Proof.
  intros Hf. revert Y. induction xs as [|x xs IH]; intros Y Hxs; simpl.
  - apply agree_ret.
  - inversion Hxs as [|v vs X Y' Hx Hxs' Hdisj]; subst.
    eapply agree_bind; [by apply Hf | | exact Hdisj | reflexivity].
    intros y. eapply agree_bind; [by apply IH | | | ].
    + intros ys. apply (agree_ret ∅).
    + set_solver.
    + set_solver.
Qed.

Lemma bind_lift_returned {A B} (a : A) (k : A → M B) :
  bind (lift (Returned a)) k = k a.
Proof. reflexivity. Qed.

Lemma bind_lift_threw {A B} e (k : A → M B) :
  bind (lift (Threw e)) k = throw e.
Proof. reflexivity. Qed.

Lemma agree_throw {A} X e : agree X (@throw A e) (throw e).
Proof. intros seen seen0 _. simpl. split_and!; [done | set_solver | done]. Qed.

Section StyledTree.

Variable L : Styled.Logger.
Variable host : Styled.Host.
Variable heap : Heap.

Local Abbreviation Lon := (Styled.withCircularHandling true L).
Local Abbreviation Loff := (Styled.withCircularHandling false L).

Ltac same_logger :=
  change (Styled.maxDepth (Styled.withCircularHandling _ L))
    with (Styled.maxDepth L);
  change (Styled.maxStringLength (Styled.withCircularHandling _ L))
    with (Styled.maxStringLength L);
  change (Styled.colorizeText (Styled.withCircularHandling _ L))
    with (Styled.colorizeText L);
  change (Styled.asElement (Styled.withCircularHandling _ L))
    with (Styled.asElement L);
  change (Styled.formatDOMElement (Styled.withCircularHandling _ L))
    with (Styled.formatDOMElement L);
  change (Styled.getIndentation (Styled.withCircularHandling _ L))
    with (Styled.getIndentation L);
  change (Styled.prettyPrint (Styled.withCircularHandling _ L))
    with (Styled.prettyPrint L).

Lemma styled_checkCircular_fresh a :
  agree {[a]} (Styled.checkCircular Lon a) (Styled.checkCircular Loff a).
Proof.
  intros seen seen0 Hseen.
  unfold Styled.checkCircular, bind, seenHas, seenSet, ret. simpl.
  rewrite bool_decide_eq_false_2 by set_solver.
  split_and!; [set_solver | set_solver | done].
Qed.

Lemma styled_body_tree recur_on recur_off arg depth ind X :
  (∀ v d i Y, treeShaped heap v Y → agree Y (recur_on v d i) (recur_off v d i)) →
  treeShaped heap arg X →
  agree X (Styled.formatArgumentBody Lon host heap recur_on arg depth ind)
          (Styled.formatArgumentBody Loff host heap recur_off arg depth ind).
Proof.
  intros Hrec Harg. unfold Styled.formatArgumentBody. same_logger.
  destruct (Styled.maxDepth L <? depth); [apply agree_ret|].
  destruct arg; try apply agree_ret.
  { destruct (_ <? _); apply agree_ret. }
  destruct (Styled.asElement L host (heap a)); [apply agree_ret|].
  inversion Harg as [v Hv|a' Hleaf|a' X' Hcont Hstored Hfresh]; subst.
  - by destruct (Hv a).
  - destruct (heap a); try discriminate Hleaf.
    + apply agree_ret.
    + eapply (agree_bind ∅ ∅);
        [apply agree_lift | intros; apply agree_ret | set_solver | set_solver].
    + apply agree_ret.
  - assert (Hitems : ∀ (f1 f2 : Value → M string) items,
      (∀ v Y, treeShaped heap v Y → agree Y (f1 v) (f2 v)) →
      treeShapedList heap items X' →
      agree X' (mapM f1 items) (mapM f2 items)).
    { intros f1 f2 items Hf Hitems. apply (agree_mapM heap id); [exact Hf|].
      by rewrite list_fmap_id. }
    assert (Hentries : ∀ (g : string → string → string) i entries,
      treeShapedList heap entries.*2 X' →
      agree X'
        (mapM (fun '(key, value) =>
                 bind (recur_on value (depth + 1) i) (fun s => ret (g key s)))
           entries)
        (mapM (fun '(key, value) =>
                 bind (recur_off value (depth + 1) i) (fun s => ret (g key s)))
           entries)).
    { intros g i entries Hentries. apply (agree_mapM heap snd); [|exact Hentries].
      intros [key value] Y Hvalue.
      eapply (agree_bind Y ∅);
        [apply Hrec, Hvalue | intros; apply agree_ret | set_solver | set_solver]. }
    destruct (heap a) as [el| | | |items|entries|thrown]; try discriminate Hcont;
      (eapply (agree_bind {[a]} X');
         [apply styled_checkCircular_fresh | intros c | set_solver | reflexivity]);
      (destruct c; [apply agree_ret|]);
      try apply agree_tryCatch; cbn [Object_entries stored] in *;
      rewrite ?bind_lift_returned, ?bind_lift_threw.
    + destruct (ownProperties el) as [|entry entries]; [apply agree_ret|].
      destruct (negb _);
        [ eapply (agree_bind X' ∅);
            [apply (Hentries
                      (fun key s =>
                         Styled.colorizeText L key Styled.Ckey +:+ ": " +:+ s)),
               Hstored
            | intros; apply agree_ret | set_solver | set_solver]
        | eapply (agree_bind X' ∅);
            [apply (Hentries
                      (fun key s =>
                         (ind +:+ Styled.getIndentation L 1)
                           +:+ Styled.colorizeText L key Styled.Ckey +:+ ": "
                           +:+ s)),
               Hstored
            | intros; apply agree_ret | set_solver | set_solver] ].
    + destruct items as [|item items]; [apply agree_ret|].
      destruct (negb _).
      * eapply (agree_bind X' ∅);
          [apply Hitems; [|exact Hstored] | intros; apply agree_ret
          | set_solver | set_solver].
        intros v Y Hv. by apply Hrec.
      * eapply (agree_bind X' ∅);
          [apply Hitems; [|exact Hstored] | intros; apply agree_ret
          | set_solver | set_solver].
        intros v Y Hv.
        eapply (agree_bind Y ∅);
          [apply Hrec, Hv | intros; apply agree_ret | set_solver | set_solver].
    + destruct entries as [|entry entries]; [apply agree_ret|].
      destruct (negb _);
        [ eapply (agree_bind X' ∅);
            [apply (Hentries
                      (fun key s =>
                         Styled.colorizeText L key Styled.Ckey +:+ ": " +:+ s)),
               Hstored
            | intros; apply agree_ret | set_solver | set_solver]
        | eapply (agree_bind X' ∅);
            [apply (Hentries
                      (fun key s =>
                         (ind +:+ Styled.getIndentation L 1)
                           +:+ Styled.colorizeText L key Styled.Ckey +:+ ": "
                           +:+ s)),
               Hstored
            | intros; apply agree_ret | set_solver | set_solver] ].
    + apply agree_throw.
Qed.

Lemma styled_formatArgument_tree fuel arg depth ind X :
  treeShaped heap arg X →
  agree X (Styled.formatArgument Lon host heap fuel arg depth ind)
          (Styled.formatArgument Loff host heap fuel arg depth ind).
Proof.
  revert arg depth ind X.
  induction fuel as [|fuel IH]; intros arg depth ind X Harg; simpl.
  - intros seen seen0 _. reflexivity.
  - apply styled_body_tree; [|exact Harg]. intros v d i Y Hv. by apply IH.
Qed.

End StyledTree.

Section PlainTree.

Variable L : Plain.Logger.
Variable host : Plain.Host.
Variable heap : Heap.

Local Abbreviation Lon := (plainWithCircularHandling true L).
Local Abbreviation Loff := (plainWithCircularHandling false L).

Ltac same_logger :=
  change (Plain.maxDepth (plainWithCircularHandling _ L))
    with (Plain.maxDepth L);
  change (Plain.maxStringLength (plainWithCircularHandling _ L))
    with (Plain.maxStringLength L);
  change (Plain.formatDOMElement (plainWithCircularHandling _ L))
    with (Plain.formatDOMElement L).

Ltac pure_tail := first [intros; apply agree_ret | set_solver].

Lemma plain_checkCircular_fresh a :
  agree {[a]} (Plain.checkCircular Lon a) (Plain.checkCircular Loff a).
Proof.
  intros seen seen0 Hseen.
  unfold Plain.checkCircular, bind, seenHas, seenSet, ret. simpl.
  rewrite bool_decide_eq_false_2 by set_solver.
  split_and!; [set_solver | set_solver | done].
Qed.

Lemma plain_body_tree recur_on recur_off arg depth X :
  (∀ v d Y, treeShaped heap v Y → agree Y (recur_on v d) (recur_off v d)) →
  treeShaped heap arg X →
  agree X (Plain.formatArgumentBody Lon host heap recur_on arg depth)
          (Plain.formatArgumentBody Loff host heap recur_off arg depth).
Proof.
  intros Hrec Harg. unfold Plain.formatArgumentBody. same_logger.
  destruct (Plain.maxDepth L <? depth); [apply agree_ret|].
  destruct arg; try apply agree_ret.
  { destruct (_ <? _); apply agree_ret. }
  destruct (Plain.asElement host (heap a)); [apply agree_ret|].
  inversion Harg as [v Hv|a' Hleaf|a' X' Hcont Hstored Hfresh]; subst.
  - by destruct (Hv a).
  - destruct (heap a); try discriminate Hleaf;
      first [apply agree_ret | apply agree_lift].
  - assert (Hentries : ∀ entries,
      treeShapedList heap entries.*2 X' →
      agree X'
        (mapM (fun '(key, value) =>
                 bind (recur_on value (depth + 1))
                   (fun s => ret (key +:+ ": " +:+ s))) entries)
        (mapM (fun '(key, value) =>
                 bind (recur_off value (depth + 1))
                   (fun s => ret (key +:+ ": " +:+ s))) entries)).
    { intros entries Hentries. apply (agree_mapM heap snd); [|exact Hentries].
      intros [key value] Y Hvalue.
      eapply (agree_bind Y ∅); [apply Hrec, Hvalue | pure_tail..]. }
    destruct (heap a) as [el| | | |items|entries|thrown]; try discriminate Hcont;
      (eapply (agree_bind {[a]} X');
         [apply plain_checkCircular_fresh | intros c | set_solver | reflexivity]);
      (destruct c; [apply agree_ret|]);
      try apply agree_tryCatch; cbn [Object_entries stored] in *;
      rewrite ?bind_lift_returned, ?bind_lift_threw.
    + eapply (agree_bind X' ∅); [apply Hentries, Hstored | pure_tail..].
    + eapply (agree_bind X' ∅); [|pure_tail..].
      apply (agree_mapM heap id); [|by rewrite list_fmap_id].
      intros v Y Hv. by apply Hrec.
    + eapply (agree_bind X' ∅); [apply Hentries, Hstored | pure_tail..].
    + apply agree_throw.
Qed.

Lemma plain_formatArgument_tree fuel arg depth X :
  treeShaped heap arg X →
  agree X (Plain.formatArgument Lon host heap fuel arg depth)
          (Plain.formatArgument Loff host heap fuel arg depth).
Proof.
  revert arg depth X.
  induction fuel as [|fuel IH]; intros arg depth X Harg; simpl.
  - intros seen seen0 _. reflexivity.
  - apply plain_body_tree; [|exact Harg]. intros v d Y Hv. by apply IH.
Qed.

End PlainTree.

(** ** Evaluating one activation *)



Section PlainSteps.

Variable L : Plain.Logger.
Variable host : Plain.Host.
Variable heap : Heap.

Local Abbreviation body := (Plain.formatArgumentBody L host heap).

Lemma plain_asElement_None o :
  (∀ el, o ≠ OElement el) → Plain.asElement host o = None.
Proof.
  intros Ho. unfold Plain.asElement.
  destruct (_ && _); [|reflexivity]. destruct o; try reflexivity.
  by destruct (Ho el).
Qed.







End PlainSteps.

Section StyledSteps.

Variable L : Styled.Logger.
Variable host : Styled.Host.
Variable heap : Heap.

Local Abbreviation body := (Styled.formatArgumentBody L host heap).
Local Abbreviation paint := (Styled.colorizeText L).

Lemma styled_colorizeText_off text type :
  Styled.useColors L = false → paint text type = text.
Proof. intros H. unfold Styled.colorizeText. by rewrite H. Qed.

Lemma styled_asElement_None o :
  (∀ el, o ≠ OElement el) → Styled.asElement L host o = None.
Proof.
  intros Ho. unfold Styled.asElement.
  destruct (_ && _); [|reflexivity]. destruct o; try reflexivity.
  by destruct (Ho el).
Qed.










End StyledSteps.

(** ** The depth limit *)








(** ** The visited set *)






(** ** Termination *)

(** C5.  The formatter returns (a string or an exception) on every value of
    every store, cyclic ones included, with circular handling on or off: an
    activation at depth [d] needs no more than [maxDepth + 1 - d]
    activations below it, since each call passes [depth + 1] and a call
    whose depth exceeds [maxDepth] returns at once.  A larger budget gives
    the same result.  The bound is reached: on [x.self = x] without circular
    handling, [maxDepth + 1] nested calls below the first are made. *)
Theorem formatter_terminates :
  (∀ L host heap arg depth seen,
     ∃ seen' o,
       Plain.formatArgument L host heap (S (Plain.maxDepth L + 1 - depth)) arg
         depth seen = Some (seen', o)
       ∧ ∀ fuel, Plain.maxDepth L + 1 - depth < fuel →
           Plain.formatArgument L host heap fuel arg depth seen
           = Some (seen', o))
  ∧ (∀ L host heap arg depth ind seen,
       ∃ seen' o,
         Styled.formatArgument L host heap (S (Styled.maxDepth L + 1 - depth))
           arg depth ind seen = Some (seen', o)
         ∧ ∀ fuel, Styled.maxDepth L + 1 - depth < fuel →
             Styled.formatArgument L host heap fuel arg depth ind seen
             = Some (seen', o))
  ∧ (∀ L host heap arg, is_Some (Plain.format L host heap arg))
  ∧ (∀ L host heap arg, is_Some (Styled.format L host heap arg))
  ∧ Plain.format (plainWithCircularHandling false Plain.defaults) noWindow
      sample (VRef 2)
    = Some (Returned
        "{self: {self: {self: {self: {self: {self: [Max Depth Reached]}}}}}}")
  ∧ Plain.formatArgument (plainWithCircularHandling false Plain.defaults)
      noWindow sample (Plain.maxDepth Plain.defaults + 1) (VRef 2) 0 ∅
    = None.
Proof.
  split_and!; try (vm_compute; reflexivity).
  - intros L host heap arg depth seen.
    destruct (plain_formatArgument_defined L host heap
                (S (Plain.maxDepth L + 1 - depth)) arg depth) with seen
      as [[seen' o] H]; [lia | lia |].
    exists seen', o. split; [exact H|]. intros fuel Hfuel.
    eapply plain_formatArgument_fuel; [|exact H]. lia.
  - intros L host heap arg depth ind seen.
    destruct (styled_formatArgument_defined L host heap
                (S (Styled.maxDepth L + 1 - depth)) arg depth ind) with seen
      as [[seen' o] H]; [lia | lia |].
    exists seen', o. split; [exact H|]. intros fuel Hfuel.
    eapply styled_formatArgument_fuel; [|exact H]. lia.
  - intros L host heap arg. unfold Plain.format.
    destruct (plain_formatArgument_defined L host heap
                (S (Plain.maxDepth L + 1)) arg 0) with (∅ : Seen)
      as [r ->]; [lia | lia |]. by eexists.
  - intros L host heap arg. unfold Styled.format.
    destruct (styled_formatArgument_defined L host heap
                (S (Styled.maxDepth L + 1)) arg 0 EmptyString) with (∅ : Seen)
      as [r ->]; [lia | lia |]. by eexists.
Qed.

Lemma formatter_terminates_witness :
  ∃ seen' o,
    Plain.formatArgument (plainWithCircularHandling false Plain.defaults)
      noWindow sample 7 (VRef 2) 0 ∅ = Some (seen', o)
    ∧ Plain.formatArgument (plainWithCircularHandling false Plain.defaults)
        noWindow sample 20 (VRef 2) 0 ∅ = Some (seen', o).
Proof.
  destruct (proj1 formatter_terminates
              (plainWithCircularHandling false Plain.defaults) noWindow sample
              (VRef 2) 0 ∅) as (seen' & o & H & Hmore).
  exists seen', o. split; [exact H|]. apply Hmore. simpl. lia.
Defined.

(** ** Pretty-printing against inline output *)


Example pretty_and_inline_sample :
  Styled.format (Styled.withColors false (Styled.defaults Styled.nodeEnv))
    nodeHost sample (VRef 0)
  = Some (Returned ("{" +:+ newline +:+ "  a: 1," +:+ newline +:+ "  b: ["
                      +:+ newline +:+ "    1," +:+ newline +:+ "    2,"
                      +:+ newline +:+ "    3" +:+ newline +:+ "  ]" +:+ newline
                      +:+ "}"))
  ∧ Styled.format (compact Styled.nodeEnv) nodeHost sample (VRef 0)
    = Some (Returned "{a: 1, b: [1, 2, 3]}").
Proof. split; vm_compute; reflexivity. Qed.

(** ** Circular handling on tree-shaped values *)

(** C10.  On a tree-shaped value (no array or object below it occurs twice)
    the output with circular handling enabled is the output with circular
    handling disabled. *)
Theorem circular_handling_irrelevant_on_trees heap arg X :
  treeShaped heap arg X →
  (∀ L host,
     Plain.format (plainWithCircularHandling true L) host heap arg
     = Plain.format (plainWithCircularHandling false L) host heap arg)
  ∧ (∀ L host,
       Styled.format (Styled.withCircularHandling true L) host heap arg
       = Styled.format (Styled.withCircularHandling false L) host heap arg).
Proof.
  intros Htree. split; intros L host.
  - unfold Plain.format.
    change (Plain.maxDepth (plainWithCircularHandling _ L))
      with (Plain.maxDepth L).
    pose proof (plain_formatArgument_tree L host heap
                  (S (Plain.maxDepth L + 1)) arg 0 X Htree (∅ : Seen) (∅ : Seen)
                  ltac:(set_solver)) as H.
    destruct (Plain.formatArgument (plainWithCircularHandling true L) host heap
                (S (Plain.maxDepth L + 1)) arg 0 ∅) as [[seen' o]|].
    + destruct H as (_ & _ & ->). reflexivity.
    + by rewrite H.
  - unfold Styled.format.
    change (Styled.maxDepth (Styled.withCircularHandling _ L))
      with (Styled.maxDepth L).
    pose proof (styled_formatArgument_tree L host heap
                  (S (Styled.maxDepth L + 1)) arg 0 EmptyString X Htree (∅ : Seen)
                  (∅ : Seen)
                  ltac:(set_solver)) as H.
    destruct (Styled.formatArgument (Styled.withCircularHandling true L) host
                heap (S (Styled.maxDepth L + 1)) arg 0 EmptyString ∅)
      as [[seen' o]|].
    + destruct H as (_ & _ & ->). reflexivity.
    + by rewrite H.
Qed.

Lemma circular_handling_irrelevant_on_trees_witness :
  (∀ L host,
     Plain.format (plainWithCircularHandling true L) host sample (VRef 0)
     = Plain.format (plainWithCircularHandling false L) host sample (VRef 0))
  ∧ (∀ L host,
       Styled.format (Styled.withCircularHandling true L) host sample (VRef 0)
       = Styled.format (Styled.withCircularHandling false L) host sample
           (VRef 0)).
Proof.
  eapply circular_handling_irrelevant_on_trees.
  eapply tree_container; [reflexivity | | ].
  - change (stored (sample 0)) with [num 1; VRef 1].
    eapply tree_cons; [by apply tree_primitive | | ].
    + eapply tree_cons; [ | apply tree_nil | ].
      * eapply tree_container; [reflexivity | | ].
        -- change (stored (sample 1)) with [num 1; num 2; num 3].
           repeat (eapply tree_cons; [by apply tree_primitive | | ]).
           ++ apply tree_nil.
           ++ set_solver.
           ++ set_solver.
           ++ set_solver.
        -- set_solver.
      * set_solver.
    + set_solver.
  - set_solver.
Defined.

(** Without the hypothesis the two outputs can differ: [[o, o]]. *)
Example circular_handling_on_shared_object :
  Plain.format (plainWithCircularHandling true Plain.defaults) noWindow sample
    (VRef 5) = Some (Returned "[{}, [Circular Reference]]")
  ∧ Plain.format (plainWithCircularHandling false Plain.defaults) noWindow
      sample (VRef 5) = Some (Returned "[{}, {}]").
Proof. split; vm_compute; reflexivity. Qed.

(** ** Generic objects *)



(** ** Exceptions *)

Lemma quiet_lift_returned {A} (a : A) : quiet (lift (Returned a)).
Proof. intros seen seen' e. discriminate. Qed.

Ltac quiet_of_rest IH check :=
  descend
    ltac:(first [ apply quiet_ret | apply IH | apply check ])
    ltac:(first [ apply quiet_bind | apply quiet_tryCatch | apply quiet_mapM ]).

(** A store without a date whose time value is NaN: nothing is thrown. *)
Lemma plain_formatArgument_quiet L host heap fuel arg depth :
  (∀ a, heap a ≠ ODate None) →
  quiet (Plain.formatArgument L host heap fuel arg depth).
Proof.
  intros Hdates. revert arg depth.
  induction fuel as [|fuel IH]; intros arg depth; [discriminate|].
  cbn [Plain.formatArgument]. unfold Plain.formatArgumentBody.
  destruct (Plain.maxDepth L <? depth); [apply quiet_ret|].
  destruct arg; try apply quiet_ret.
  { destruct (_ <? _); apply quiet_ret. }
  destruct (Plain.asElement host (heap a)); [apply quiet_ret|].
  destruct (heap a) eqn:Ha;
    try solve [quiet_of_rest IH (plain_checkCircular_quiet L)].
  destruct iso; [apply quiet_lift_returned | by destruct (Hdates a)].
Qed.

Lemma styled_formatArgument_quiet L host heap fuel arg depth ind :
  (∀ a, heap a ≠ ODate None) →
  quiet (Styled.formatArgument L host heap fuel arg depth ind).
Proof.
  intros Hdates. revert arg depth ind.
  induction fuel as [|fuel IH]; intros arg depth ind; [discriminate|].
  cbn [Styled.formatArgument]. unfold Styled.formatArgumentBody.
  destruct (Styled.maxDepth L <? depth); [apply quiet_ret|].
  destruct arg; try apply quiet_ret.
  { destruct (_ <? _); apply quiet_ret. }
  destruct (Styled.asElement L host (heap a)); [apply quiet_ret|].
  destruct (heap a) eqn:Ha;
    try solve [quiet_of_rest IH (styled_checkCircular_quiet L)].
  destruct iso; [|by destruct (Hdates a)].
  apply quiet_bind; [apply quiet_lift_returned | intros; apply quiet_ret].
Qed.

(** C1.  The formatter does throw: [toISOString] raises a RangeError on a
    date whose time value is NaN, and the date branch has no handler.  The
    exception leaves [formatArgument] when the date is the argument itself
    or sits in an array; inside a generic object it is caught by the handler
    of the object branch, like the failure of [Object.entries] on an object
    that cannot be enumerated. *)
Theorem invalid_date_escapes :
  (∀ L host heap a,
     heap a = ODate None →
     Plain.format L host heap (VRef a)
     = Some (Threw (ThrownError "Invalid time value")))
  ∧ (∀ L host heap a,
       heap a = ODate None →
       Styled.format L host heap (VRef a)
       = Some (Threw (ThrownError "Invalid time value")))
  ∧ Plain.format Plain.defaults noWindow sample (VRef 9)
    = Some (Threw (ThrownError "Invalid time value"))
  ∧ Styled.format (Styled.defaults Styled.nodeEnv) nodeHost sample (VRef 9)
    = Some (Threw (ThrownError "Invalid time value"))
  ∧ Styled.format (Styled.defaults Styled.nodeEnv) nodeHost sample (VRef 4)
    = Some (Returned "[Object: failed to stringify - Invalid time value]")
  ∧ Styled.format (Styled.defaults Styled.nodeEnv) nodeHost sample (VRef 8)
    = Some (Returned "[Object: failed to stringify - boom]").
Proof.
  split_and!; try (vm_compute; reflexivity).
  - intros L host heap a Ha. unfold Plain.format.
    cbn [Plain.formatArgument]. unfold Plain.formatArgumentBody.
    rewrite Ha, plain_asElement_None by done. reflexivity.
  - intros L host heap a Ha. unfold Styled.format.
    cbn [Styled.formatArgument]. unfold Styled.formatArgumentBody.
    rewrite Ha, styled_asElement_None by done. reflexivity.
Qed.

Lemma invalid_date_escapes_witness :
  Plain.format Plain.defaults noWindow sample (VRef 3)
  = Some (Threw (ThrownError "Invalid time value"))
  ∧ Styled.format (Styled.defaults Styled.browserEnv) browserHost sample (VRef 3)
    = Some (Threw (ThrownError "Invalid time value")).
Proof.
  destruct invalid_date_escapes as (H1 & H2 & _).
  split; [apply H1 | apply H2]; reflexivity.
Defined.

(** ** Strings *)

Lemma substring_prefix n s :
  n ≤ String.length s →
  String.length (substring 0 n s) = n ∧ String.prefix (substring 0 n s) s = true.
Proof.
  revert n. induction s as [|c s IH]; intros [|n] Hn; simpl in *;
    try (split; reflexivity); try lia.
  destruct (IH n) as [H1 H2]; [lia|]. split; [by rewrite H1|].
  destruct (ascii_dec c c); [exact H2 | done].
Qed.

(** C3, as the styled revision breaks it: a string within the limit is not
    returned unchanged but between double quotes, and a truncated string
    starts with a double quote, not with its first characters. *)
Lemma string_unchanged_counterexample :
  String.length "ab" ≤ Styled.maxStringLength (compact Styled.nodeEnv)
  ∧ Styled.format (compact Styled.nodeEnv) nodeHost sample (VString "ab")
    ≠ Some (Returned "ab")
  ∧ Styled.format (Styled.withMaxStringLength 3 (compact Styled.nodeEnv))
      nodeHost sample (VString "abcdef")
    ≠ Some (Returned ("abc" +:+ "..." +:+ " [truncated, 6 chars total]")).
Proof. split_and!; [simpl; lia | vm_compute; discriminate..]. Qed.

(** C3, amended.  In [src/index.ts] a string of at most [maxStringLength]
    characters is returned unchanged, and a longer one as its first
    [maxStringLength] characters, then "...", then
    " [truncated, N chars total]" with N the length of the string.  The
    styled revision puts the string, or its first [maxStringLength]
    characters and "...", between double quotes (and through
    [colorizeText]); the marker follows the closing quote. *)
Theorem string_truncation :
  (∀ L host heap s,
     let limit := Plain.maxStringLength L in
     (String.length s ≤ limit →
      Plain.format L host heap (VString s) = Some (Returned s))
     ∧ (limit < String.length s →
        Plain.format L host heap (VString s)
        = Some (Returned (substring 0 limit s +:+ "..." +:+ " [truncated, "
                            +:+ natToString (String.length s)
                            +:+ " chars total]"))
        ∧ String.length (substring 0 limit s) = limit
        ∧ String.prefix (substring 0 limit s) s = true))
  ∧ (∀ L host heap s,
       let limit := Styled.maxStringLength L in
       let paint := Styled.colorizeText L in
       (String.length s ≤ limit →
        Styled.format L host heap (VString s)
        = Some (Returned (paint (dquote +:+ s +:+ dquote) Styled.Cstring)))
       ∧ (limit < String.length s →
          Styled.format L host heap (VString s)
          = Some (Returned
              (paint (dquote +:+ (substring 0 limit s +:+ "...") +:+ dquote)
                 Styled.Cstring
               +:+ paint (" [truncated, " +:+ natToString (String.length s)
                            +:+ " chars total]") Styled.Ctruncated))
          ∧ String.length (substring 0 limit s) = limit
          ∧ String.prefix (substring 0 limit s) s = true)
       ∧ (Styled.useColors L = false → ∀ text type, paint text type = text)).
Proof.
  split.
  - intros L host heap s limit. unfold Plain.format.
    cbn [Plain.formatArgument]. unfold Plain.formatArgumentBody.
    change (Plain.maxDepth L <? 0) with false. cbv iota. split.
    + intros Hle. apply Nat.ltb_ge in Hle. fold limit. by rewrite Hle.
    + intros Hlt. split; [|apply substring_prefix; lia].
      apply Nat.ltb_lt in Hlt. fold limit. by rewrite Hlt.
  - intros L host heap s limit paint. unfold Styled.format.
    cbn [Styled.formatArgument]. unfold Styled.formatArgumentBody.
    change (Styled.maxDepth L <? 0) with false. cbv iota. split_and!.
    + intros Hle. apply Nat.ltb_ge in Hle. fold limit. by rewrite Hle.
    + intros Hlt. split; [|apply substring_prefix; lia].
      apply Nat.ltb_lt in Hlt. fold limit. by rewrite Hlt.
    + intros Hc text type. by apply styled_colorizeText_off.
Qed.

Lemma string_truncation_witness :
  Plain.format Plain.defaults noWindow sample (VString "ab")
  = Some (Returned "ab")
  ∧ Styled.format (Styled.withMaxStringLength 3 (compact Styled.nodeEnv))
      nodeHost sample (VString "abcdef")
    = Some (Returned (dquote +:+ "abc..." +:+ dquote
                        +:+ " [truncated, 6 chars total]"))
  ∧ Styled.format (Styled.withMaxStringLength 3 (compact Styled.nodeEnv))
      nodeHost sample (VString "abc")
    = Some (Returned (dquote +:+ "abc" +:+ dquote)).
Proof.
  destruct string_truncation as [HP HS]. split_and!.
  - apply (HP Plain.defaults noWindow sample "ab"). simpl. lia.
  - apply (HS (Styled.withMaxStringLength 3 (compact Styled.nodeEnv))
             nodeHost sample "abcdef"). simpl. lia.
  - apply (HS (Styled.withMaxStringLength 3 (compact Styled.nodeEnv))
             nodeHost sample "abc"). simpl. lia.
Defined.

(** The scenario of the specification: 10001 characters against the default
    limit of 10000. *)
Example string_truncation_default :
  Plain.format Plain.defaults noWindow sample (VString (copies 10001 "x"))
  = Some (Returned (copies 10000 "x" +:+ "... [truncated, 10001 chars total]"))
  ∧ Styled.format (compact Styled.nodeEnv) nodeHost sample
      (VString (copies 10001 "x"))
    = Some (Returned (dquote +:+ copies 10000 "x" +:+ "..." +:+ dquote
                        +:+ " [truncated, 10001 chars total]")).
Proof. split; vm_compute; reflexivity. Qed.

(** ** Numbers, booleans, symbols and big integers *)



(** ** Elements *)

Lemma related_mapM_eq {A B} (f1 f2 : A → M B) xs :
  (∀ x, related eq (f1 x) (f2 x)) → related eq (mapM f1 xs) (mapM f2 xs).
Proof.
  intros Hf. induction xs as [|x xs IH]; simpl; [apply related_refl|].
  eapply related_bind; [apply Hf|]. intros y ? <-.
  eapply related_bind; [exact IH|]. intros ys ? <-. apply related_refl.
Qed.

Ltac same_of_rest IH :=
  descend
    ltac:(first [ apply related_refl | apply IH ])
    ltac:(first [ apply related_mapM_eq
                | eapply (related_bind eq eq); [|intros ? ? <-]
                | apply related_tryCatch ]).

(** Where the test on the environment and the globals fails, every object
    skips the element branch. *)
Lemma styled_gate_closed L host o :
  Styled.isBrowser (Styled.env L) && Styled.windowDefined host
    && Styled.elementDefined host = false →
  Styled.asElement L host o = None.
Proof. intros H. unfold Styled.asElement. by rewrite H. Qed.

Lemma styled_formatArgument_demote L host heap fuel arg depth ind :
  Styled.isBrowser (Styled.env L) && Styled.windowDefined host
    && Styled.elementDefined host = false →
  related eq
    (Styled.formatArgument L host heap fuel arg depth ind)
    (Styled.formatArgument L host (fun a => demote (heap a)) fuel arg depth ind).
Proof.
  intros Hgate. revert arg depth ind.
  induction fuel as [|fuel IH]; intros arg depth ind; [apply related_refl|].
  cbn [Styled.formatArgument]. unfold Styled.formatArgumentBody.
  destruct (Styled.maxDepth L <? depth); [apply related_refl|].
  destruct arg; try apply related_refl.
  rewrite !styled_gate_closed by done.
  destruct (heap a); cbn [demote Object_entries]; same_of_rest IH.
Qed.

(** C9, as the code breaks it: outside a browser the formatter does not
    reach [formatDOMElement], and an element is not rendered as
    "[DOM Element]" but as a generic object, from its own enumerable
    properties. *)
Lemma element_fallback_counterexample :
  Styled.isBrowser (Styled.env (compact Styled.nodeEnv)) = false
  ∧ (∃ el, sample 7 = OElement el ∧ tagName el = "DIV")
  ∧ Styled.format (compact Styled.nodeEnv) nodeHost sample (VRef 7)
    = Some (Returned "{}")
  ∧ Styled.format (compact Styled.nodeEnv) nodeHost sample (VRef 7)
    ≠ Some (Returned "[DOM Element]").
Proof.
  split_and!; [reflexivity | by eexists | vm_compute; reflexivity
              | vm_compute; discriminate].
Qed.

(** C9, amended.  The formatter hands a value to [formatDOMElement] exactly
    when the environment is a browser, [window] and [Element] are defined
    and the value is an [Element]; the result is then what
    [formatDOMElement] returns.  There, "disabled" gives "[DOM Element]";
    "summary" gives the lower-case tag name with the number of attributes
    and of children; "inspect" gives the lower-case tag name with every
    attribute as [name="value"], and the number of children when there are
    some.  In every other context the formatter treats the element as the
    generic object of its own enumerable properties; [formatDOMElement]
    itself, outside a browser, returns "[DOM Element]". *)
Theorem element_rendering :
  (∀ L host o el,
     Styled.asElement L host o = Some el
     ↔ Styled.isBrowser (Styled.env L) = true
       ∧ Styled.windowDefined host = true
       ∧ Styled.elementDefined host = true
       ∧ o = OElement el)
  ∧ (∀ L host heap fuel a depth ind seen el,
       depth ≤ Styled.maxDepth L →
       Styled.asElement L host (heap a) = Some el →
       Styled.formatArgument L host heap (S fuel) (VRef a) depth ind seen
       = Some (seen, Returned (Styled.formatDOMElement L el)))
  ∧ (∀ L el,
       let tag := toLowerCase (tagName el) in
       (Styled.domElementFormat L = Disabled →
        Styled.formatDOMElement L el = "[DOM Element]")
       ∧ (Styled.isBrowser (Styled.env L) = false →
          Styled.formatDOMElement L el = "[DOM Element]")
       ∧ (Styled.isBrowser (Styled.env L) = true →
          Styled.domElementFormat L = Summary →
          Styled.formatDOMElement L el
          = "<" +:+ tag +:+ "> with "
              +:+ natToString (length (attributes el)) +:+ " attributes and "
              +:+ natToString (children el) +:+ " children")
       ∧ (Styled.isBrowser (Styled.env L) = true →
          Styled.domElementFormat L = Inspect →
          Styled.formatDOMElement L el
          = "<" +:+ tag +:+ attributeList (attributes el) +:+ ">"
              +:+ (if 0 <? children el
                   then " (" +:+ natToString (children el) +:+ " children)"
                   else EmptyString)))
  ∧ (∀ L host heap fuel arg depth ind seen,
       Styled.isBrowser (Styled.env L) && Styled.windowDefined host
         && Styled.elementDefined host = false →
       Styled.formatArgument L host heap fuel arg depth ind seen
       = Styled.formatArgument L host (fun a => demote (heap a)) fuel arg depth
           ind seen)
  ∧ Styled.format (Styled.defaults Styled.browserEnv) browserHost sample (VRef 7)
    = Some (Returned "<div> with 1 attributes and 2 children")
  ∧ Styled.format
      (Styled.withDomElementFormat Inspect (Styled.defaults Styled.browserEnv))
      browserHost sample (VRef 7)
    = Some (Returned ("<div id=" +:+ dquote +:+ "x" +:+ dquote
                        +:+ "> (2 children)"))
  ∧ Styled.format
      (Styled.withDomElementFormat Disabled (Styled.defaults Styled.browserEnv))
      browserHost sample (VRef 7)
    = Some (Returned "[DOM Element]").
Proof.
  split_and!; try (vm_compute; reflexivity).
  - intros L host o el. unfold Styled.asElement. split.
    + destruct (Styled.isBrowser _), (Styled.windowDefined _),
        (Styled.elementDefined _); simpl; try discriminate.
      destruct o; try discriminate. by intros [= ->].
    + by intros (-> & -> & -> & ->).
  - intros L host heap fuel a depth ind seen el Hd Hel.
    cbn [Styled.formatArgument]. unfold Styled.formatArgumentBody.
    apply Nat.ltb_ge in Hd. by rewrite Hd, Hel.
  - intros L el tag. unfold Styled.formatDOMElement. split_and!.
    + by intros ->.
    + intros ->. by destruct (Styled.domElementFormat L).
    + by intros -> ->.
    + by intros -> ->.
  - intros L host heap fuel arg depth ind seen Hgate.
    by apply related_eq, styled_formatArgument_demote.
Qed.

Lemma element_rendering_witness :
  Styled.formatArgument (Styled.defaults Styled.browserEnv) browserHost sample 1
    (VRef 7) 0 EmptyString ∅
  = Some (∅, Returned "<div> with 1 attributes and 2 children")
  ∧ Styled.formatArgument (compact Styled.nodeEnv) nodeHost sample 3 (VRef 7) 0
      EmptyString ∅
    = Styled.formatArgument (compact Styled.nodeEnv) nodeHost
        (fun a => demote (sample a)) 3 (VRef 7) 0 EmptyString ∅.
Proof.
  destruct element_rendering as (H1 & H2 & H3 & H4 & _). split.
  - apply (H2 (Styled.defaults Styled.browserEnv) browserHost sample 0 7 0
             EmptyString ∅
             {| tagName := "DIV"; attributes := [("id", "x")]; children := 2;
                ownProperties := [] |}).
    + simpl. lia.
    + apply H1. split_and!; reflexivity.
  - apply H4. reflexivity.
Defined.

(** * Further properties *)

(** ** Arrays *)





(** ** The visited set *)

Lemma stateless_ret {A} (a : A) : stateless (ret a).
Proof. intros seen other. simpl. auto. Qed.

Lemma stateless_lift {A} (o : Outcome A) : stateless (lift o).
Proof. intros seen other. simpl. auto. Qed.

Lemma stateless_bind {A B} (m : M A) (k : A → M B) :
  stateless m → (∀ a, stateless (k a)) → stateless (bind m k).
Proof.
  intros Hm Hk seen other. specialize (Hm seen other). unfold bind.
  destruct (m seen) as [[seen1 [a|e]]|].
  - destruct Hm as [-> ->]. apply Hk.
  - destruct Hm as [-> ->]. auto.
  - by rewrite Hm.
Qed.

Lemma stateless_tryCatch {A} (m : M A) (h : JsThrown → M A) :
  stateless m → (∀ e, stateless (h e)) → stateless (tryCatch m h).
Proof.
  intros Hm Hh seen other. specialize (Hm seen other). unfold tryCatch.
  destruct (m seen) as [[seen1 [a|e]]|].
  - destruct Hm as [-> ->]. auto.
  - destruct Hm as [-> ->]. apply Hh.
  - by rewrite Hm.
Qed.

Lemma stateless_mapM {A B} (f : A → M B) xs :
  (∀ x, stateless (f x)) → stateless (mapM f xs).
Proof.
  intros Hf. induction xs as [|x xs IH]; simpl; [apply stateless_ret|].
  apply stateless_bind; [apply Hf|]. intros y.
  apply stateless_bind; [exact IH|]. intros ys. apply stateless_ret.
Qed.

Ltac stateless_of_rest IH check :=
  descend
    ltac:(first [ apply stateless_ret | apply stateless_lift | apply IH
                | apply check ])
    ltac:(first [ apply stateless_bind | apply stateless_tryCatch
                | apply stateless_mapM ]).

Lemma plain_checkCircular_stateless L a :
  Plain.enableCircularHandling L = false →
  stateless (Plain.checkCircular L a).
Proof.
  intros HL seen other.
  unfold Plain.checkCircular, bind, seenHas, seenSet, ret. rewrite HL.
  simpl. auto.
Qed.

Lemma styled_checkCircular_stateless L a :
  Styled.enableCircularHandling L = false →
  stateless (Styled.checkCircular L a).
Proof.
  intros HL seen other.
  unfold Styled.checkCircular, bind, seenHas, seenSet, ret. rewrite HL.
  simpl. auto.
Qed.

Lemma plain_formatArgument_stateless L host heap fuel arg depth :
  Plain.enableCircularHandling L = false →
  stateless (Plain.formatArgument L host heap fuel arg depth).
Proof.
  intros HL. revert arg depth.
  induction fuel as [|fuel IH]; intros arg depth.
  - intros seen other. reflexivity.
  - cbn [Plain.formatArgument]. unfold Plain.formatArgumentBody.
    stateless_of_rest IH (plain_checkCircular_stateless L).
    all: exact HL.
Qed.

Lemma styled_formatArgument_stateless L host heap fuel arg depth ind :
  Styled.enableCircularHandling L = false →
  stateless (Styled.formatArgument L host heap fuel arg depth ind).
Proof.
  intros HL. revert arg depth ind.
  induction fuel as [|fuel IH]; intros arg depth ind.
  - intros seen other. reflexivity.
  - cbn [Styled.formatArgument]. unfold Styled.formatArgumentBody.
    stateless_of_rest IH (styled_checkCircular_stateless L).
    all: exact HL.
Qed.

(** X2.  With circular handling disabled the visited map is neither written
    nor read: a call leaves the map as it was, and from any other map it
    ends alike. *)
Theorem disabled_handling_ignores_seen :
  (∀ L host heap fuel arg depth seen seen' o,
     Plain.enableCircularHandling L = false →
     Plain.formatArgument L host heap fuel arg depth seen = Some (seen', o) →
     seen' = seen
     ∧ ∀ other,
         Plain.formatArgument L host heap fuel arg depth other
         = Some (other, o))
  ∧ (∀ L host heap fuel arg depth ind seen seen' o,
       Styled.enableCircularHandling L = false →
       Styled.formatArgument L host heap fuel arg depth ind seen
         = Some (seen', o) →
       seen' = seen
       ∧ ∀ other,
           Styled.formatArgument L host heap fuel arg depth ind other
           = Some (other, o)).
Proof.
  split.
  - intros L host heap fuel arg depth seen seen' o HL H.
    pose proof (plain_formatArgument_stateless L host heap fuel arg depth HL)
      as Hs.
    split.
    + specialize (Hs seen seen). rewrite H in Hs. by destruct Hs.
    + intros other. specialize (Hs seen other). rewrite H in Hs. by destruct Hs.
  - intros L host heap fuel arg depth ind seen seen' o HL H.
    pose proof (styled_formatArgument_stateless L host heap fuel arg depth ind
                  HL) as Hs.
    split.
    + specialize (Hs seen seen). rewrite H in Hs. by destruct Hs.
    + intros other. specialize (Hs seen other). rewrite H in Hs. by destruct Hs.
Qed.

Lemma disabled_handling_ignores_seen_witness :
  ({[5; 6]} : Seen) = {[5; 6]}
  ∧ ∀ other,
      Plain.formatArgument (plainWithCircularHandling false Plain.defaults)
        noWindow sample 3 (VRef 5) 0 other
      = Some (other, Returned "[{}, {}]").
Proof.
  apply (proj1 disabled_handling_ignores_seen
           (plainWithCircularHandling false Plain.defaults) noWindow sample 3
           (VRef 5) 0 {[5; 6]} {[5; 6]} (Returned "[{}, {}]")).
  - reflexivity.
  - vm_compute. reflexivity.
Defined.

Lemma adds_ret {A} P (a : A) : adds P (ret a).
Proof. intros seen seen' o [= <- _] x Hx. by left. Qed.

Lemma adds_lift {A} P (o : Outcome A) : adds P (lift o).
Proof. intros seen seen' o' [= <- _] x Hx. by left. Qed.

Lemma adds_bind {A B} P (m : M A) (k : A → M B) :
  adds P m → (∀ a, adds P (k a)) → adds P (bind m k).
Proof.
  intros Hm Hk seen seen' o H x Hx.
  apply bind_Some in H as (seen1 & [a|e] & H1 & H2).
  - destruct (Hk _ _ _ _ H2 x Hx) as [Hin|HP]; [|by right].
    exact (Hm _ _ _ H1 x Hin).
  - injection H2 as <- _. exact (Hm _ _ _ H1 x Hx).
Qed.

Lemma adds_tryCatch {A} P (m : M A) (h : JsThrown → M A) :
  adds P m → (∀ e, adds P (h e)) → adds P (tryCatch m h).
Proof.
  intros Hm Hh seen seen' o. unfold tryCatch.
  destruct (m seen) as [[seen1 [a|e]]|] eqn:E; intros H x Hx; try discriminate.
  - injection H as <- _. exact (Hm _ _ _ E x Hx).
  - destruct (Hh _ _ _ _ H x Hx) as [Hin|HP]; [|by right].
    exact (Hm _ _ _ E x Hin).
Qed.

Lemma adds_mapM {A B} P (f : A → M B) xs :
  (∀ x, adds P (f x)) → adds P (mapM f xs).
Proof.
  intros Hf. induction xs as [|x xs IH]; simpl; [apply adds_ret|].
  apply adds_bind; [apply Hf|]. intros y.
  apply adds_bind; [exact IH|]. intros ys. apply adds_ret.
Qed.

Ltac adds_of_rest IH :=
  descend
    ltac:(first [ apply adds_ret | apply adds_lift | apply IH ])
    ltac:(first [ apply adds_bind | apply adds_tryCatch | apply adds_mapM ]).

Lemma plain_checkCircular_adds L (P : addr → Prop) a :
  P a → adds P (Plain.checkCircular L a).
Proof.
  intros HP seen seen' o.
  unfold Plain.checkCircular, bind, seenHas, seenSet, ret.
  destruct (Plain.enableCircularHandling L), (bool_decide (a ∈ seen));
    simpl; intros [= <- _] x Hx; set_solver.
Qed.

Lemma styled_checkCircular_adds L (P : addr → Prop) a :
  P a → adds P (Styled.checkCircular L a).
Proof.
  intros HP seen seen' o.
  unfold Styled.checkCircular, bind, seenHas, seenSet, ret.
  destruct (Styled.enableCircularHandling L), (bool_decide (a ∈ seen));
    simpl; intros [= <- _] x Hx; set_solver.
Qed.

Lemma plain_formatArgument_adds L host heap fuel arg depth :
  adds (fun a => isContainer (heap a) = true
                 ∧ Plain.asElement host (heap a) = None)
    (Plain.formatArgument L host heap fuel arg depth).
Proof.
  revert arg depth. induction fuel as [|fuel IH]; intros arg depth;
    [discriminate|].
  cbn [Plain.formatArgument]. unfold Plain.formatArgumentBody.
  destruct (Plain.maxDepth L <? depth); [apply adds_ret|].
  destruct arg; try apply adds_ret.
  { destruct (_ <? _); apply adds_ret. }
  destruct (Plain.asElement host (heap a)) eqn:Hel; [apply adds_ret|].
  destruct (heap a) eqn:Ha;
    try (first [apply adds_ret | apply adds_lift]);
    (apply adds_bind;
       [apply plain_checkCircular_adds; by rewrite Ha
       | intros [|]; [apply adds_ret | adds_of_rest IH]]).
Qed.

Lemma styled_formatArgument_adds L host heap fuel arg depth ind :
  adds (fun a => isContainer (heap a) = true
                 ∧ Styled.asElement L host (heap a) = None)
    (Styled.formatArgument L host heap fuel arg depth ind).
Proof.
  revert arg depth ind. induction fuel as [|fuel IH]; intros arg depth ind;
    [discriminate|].
  cbn [Styled.formatArgument]. unfold Styled.formatArgumentBody.
  destruct (Styled.maxDepth L <? depth); [apply adds_ret|].
  destruct arg; try apply adds_ret.
  { destruct (_ <? _); apply adds_ret. }
  destruct (Styled.asElement L host (heap a)) eqn:Hel; [apply adds_ret|].
  destruct (heap a) eqn:Ha;
    try (first [ apply adds_ret
               | apply adds_bind; [apply adds_lift | intros; apply adds_ret] ]);
    (apply adds_bind;
       [apply styled_checkCircular_adds; by rewrite Ha
       | intros [|]; [apply adds_ret | adds_of_rest IH]]).
Qed.

(** X3.  Only arrays and objects of the generic branch are ever entered in
    the visited map.  An error, a date or a pattern is formatted without a
    look at the map, so one that occurs several times is never reported as
    circular: whatever the map holds, it is left as it was and the result is
    the same. *)
Theorem only_containers_are_registered :
  (∀ L host heap fuel arg depth seen seen' o,
     Plain.formatArgument L host heap fuel arg depth seen = Some (seen', o) →
     ∀ a, a ∈ seen' →
       a ∈ seen
       ∨ (isContainer (heap a) = true ∧ Plain.asElement host (heap a) = None))
  ∧ (∀ L host heap fuel arg depth ind seen seen' o,
       Styled.formatArgument L host heap fuel arg depth ind seen
         = Some (seen', o) →
       ∀ a, a ∈ seen' →
         a ∈ seen
         ∨ (isContainer (heap a) = true
            ∧ Styled.asElement L host (heap a) = None))
  ∧ (∀ L host heap fuel a depth seen other,
       isContainer (heap a) = false →
       Plain.formatArgument L host heap fuel (VRef a) depth seen
       = (fun r => (seen, r.2))
           <$> Plain.formatArgument L host heap fuel (VRef a) depth other)
  ∧ (∀ L host heap fuel a depth ind seen other,
       isContainer (heap a) = false →
       Styled.formatArgument L host heap fuel (VRef a) depth ind seen
       = (fun r => (seen, r.2))
           <$> Styled.formatArgument L host heap fuel (VRef a) depth ind other).
Proof.
  split_and!.
  - intros L host heap fuel arg depth seen seen' o H.
    exact (plain_formatArgument_adds L host heap fuel arg depth _ _ _ H).
  - intros L host heap fuel arg depth ind seen seen' o H.
    exact (styled_formatArgument_adds L host heap fuel arg depth ind _ _ _ H).
  - intros L host heap [|fuel] a depth seen other Hleaf; [reflexivity|].
    cbn [Plain.formatArgument]. unfold Plain.formatArgumentBody.
    destruct (Plain.maxDepth L <? depth); [reflexivity|].
    destruct (Plain.asElement host (heap a)); [reflexivity|].
    destruct (heap a); try discriminate Hleaf; reflexivity.
  - intros L host heap [|fuel] a depth ind seen other Hleaf; [reflexivity|].
    cbn [Styled.formatArgument]. unfold Styled.formatArgumentBody.
    destruct (Styled.maxDepth L <? depth); [reflexivity|].
    destruct (Styled.asElement L host (heap a)); [reflexivity|].
    destruct (heap a) as [| | [iso|] | | | |]; try discriminate Hleaf;
      reflexivity.
Qed.

Lemma only_containers_are_registered_witness :
  (∀ a, a ∈ ({[9]} : Seen) →
     a ∈ (∅ : Seen)
     ∨ (isContainer (sample a) = true
        ∧ Plain.asElement noWindow (sample a) = None))
  ∧ Styled.formatArgument (compact Styled.nodeEnv) nodeHost sample 1 (VRef 3) 0
      EmptyString {[3]}
    = (fun r => ({[3]}, r.2))
        <$> Styled.formatArgument (compact Styled.nodeEnv) nodeHost sample 1
              (VRef 3) 0 EmptyString ∅.
Proof.
  destruct only_containers_are_registered as (H1 & _ & _ & H4). split.
  - apply (H1 Plain.defaults noWindow sample 3 (VRef 9) 0 ∅ {[9]}
             (Threw (ThrownError "Invalid time value"))).
    vm_compute. reflexivity.
  - apply H4. reflexivity.
Defined.

(** ** Exceptions inside objects *)








(** ** Colours *)

Section Repaint.

Variable L : Styled.Logger.
Variable host : Styled.Host.
Variable heap : Heap.

(** A relation between the text without colours and the text of [L]. *)
Variable R : string → string → Prop.
Hypothesis R_same : ∀ s, R s s.
Hypothesis R_append : ∀ a a' b b', R a a' → R b b' → R (a +:+ b) (a' +:+ b').
Hypothesis R_paint :
  ∀ text type,
    R (Styled.colorizeText (Styled.withColors false L) text type)
      (Styled.colorizeText L text type).

Lemma R_join sep strs strs' :
  Forall2 R strs strs' → R (join sep strs) (join sep strs').
Proof.
  intros H. unfold join.
  induction H as [|x y xs ys Hxy H IH]; [apply R_same|].
  destruct H as [|x' y' xs ys Hxy' H]; [exact Hxy|].
  change (R (x +:+ sep +:+ String.concat sep (x' :: xs))
            (y +:+ sep +:+ String.concat sep (y' :: ys))).
  apply R_append; [exact Hxy|]. apply R_append; [apply R_same | exact IH].
Qed.

Ltac shade :=
  repeat first
    [ apply R_same | assumption | apply R_paint | apply R_join; assumption
    | apply R_append ].

Ltac repaint Hrec :=
  repeat first
    [ apply related_ret; solve [shade]
    | apply Hrec
    | apply related_refl
    | apply related_tryCatch
    | apply related_mapM
    | eapply related_bind
    | match goal with
      | |- ∀ _ _, _ = _ → _ => intros ? ? <-
      | |- ∀ _, _ => intro
      | |- context [if ?b then _ else _] => destruct b
      | |- context [match ?x with _ => _ end] => destruct x
      end ].

Lemma styled_body_repaint recur1 recur2 arg depth ind :
  (∀ v d i, related R (recur1 v d i) (recur2 v d i)) →
  related R
    (Styled.formatArgumentBody (Styled.withColors false L) host heap recur1 arg
       depth ind)
    (Styled.formatArgumentBody L host heap recur2 arg depth ind).
Proof.
  intros Hrec. unfold Styled.formatArgumentBody.
  change (Styled.maxDepth (Styled.withColors false L)) with (Styled.maxDepth L).
  change (Styled.maxStringLength (Styled.withColors false L))
    with (Styled.maxStringLength L).
  change (Styled.checkCircular (Styled.withColors false L))
    with (Styled.checkCircular L).
  change (Styled.asElement (Styled.withColors false L))
    with (Styled.asElement L).
  change (Styled.formatDOMElement (Styled.withColors false L))
    with (Styled.formatDOMElement L).
  change (Styled.getIndentation (Styled.withColors false L))
    with (Styled.getIndentation L).
  change (Styled.prettyPrint (Styled.withColors false L))
    with (Styled.prettyPrint L).
  repaint Hrec.
Qed.

Lemma styled_formatArgument_repaint fuel arg depth ind :
  related R
    (Styled.formatArgument (Styled.withColors false L) host heap fuel arg depth
       ind)
    (Styled.formatArgument L host heap fuel arg depth ind).
Proof.
  revert arg depth ind. induction fuel as [|fuel IH]; intros arg depth ind.
  - intros seen. exact I.
  - cbn [Styled.formatArgument]. apply styled_body_repaint. exact IH.
Qed.

End Repaint.

Lemma tinted_colorizeText L text type :
  tinted (Styled.colorizeText (Styled.withColors false L) text type)
    (Styled.colorizeText L text type).
Proof.
  unfold Styled.colorizeText at 2.
  destruct (negb _); [apply tinted_same|].
  destruct (_ && _); [|apply tinted_same].
  apply tinted_wrap, tinted_same.
Qed.

Lemma tinted_length plain coloured :
  tinted plain coloured → String.length plain ≤ String.length coloured.
Proof.
  assert (Hlen : ∀ a b, String.length (a +:+ b)
                        = String.length a + String.length b).
  { intros a b. induction a as [|c a IH]; [reflexivity|].
    rewrite append_cons. simpl. by rewrite IH. }
  induction 1 as [s|a a' b b' _ IHa _ IHb|type s s' _ IH]; [lia| |].
  - rewrite !Hlen. lia.
  - rewrite !Hlen. lia.
Qed.

Lemma styled_format_colours_off L host heap arg :
  Styled.useColors L = false
  ∨ Styled.isNode (Styled.env L) = false
  ∨ Styled.isEdgeRuntime (Styled.env L) = true →
  Styled.format L host heap arg
  = Styled.format (Styled.withColors false L) host heap arg.
Proof.
  intros Hoff. unfold Styled.format.
  change (Styled.maxDepth (Styled.withColors false L)) with (Styled.maxDepth L).
  symmetry. f_equal. apply related_eq.
  apply styled_formatArgument_repaint; [reflexivity | by intros; subst |].
  intros text type. unfold Styled.colorizeText. cbn.
  destruct Hoff as [->| [->| ->]]; [reflexivity | |].
  - by destruct (Styled.useColors L).
  - destruct (Styled.useColors L), (Styled.isNode _); reflexivity.
Qed.

(** X5.  Colour codes are added only under Node.js: when colours are off,
    or the environment is not Node.js, or it is an edge runtime, the output
    is the output of the same logger with colours off. *)
Theorem colours_only_under_node L host heap arg :
  Styled.useColors L = false
  ∨ Styled.isNode (Styled.env L) = false
  ∨ Styled.isEdgeRuntime (Styled.env L) = true →
  Styled.format L host heap arg
  = Styled.format (Styled.withColors false L) host heap arg.
Proof.
  intros Hoff. unfold Styled.format.
  change (Styled.maxDepth (Styled.withColors false L)) with (Styled.maxDepth L).
  symmetry. f_equal. apply related_eq.
  apply styled_formatArgument_repaint; [reflexivity | by intros; subst |].
  intros text type. unfold Styled.colorizeText. cbn.
  destruct Hoff as [->| [->| ->]]; [reflexivity | |].
  - by destruct (Styled.useColors L).
  - destruct (Styled.useColors L), (Styled.isNode _); reflexivity.
Qed.

Lemma colours_only_under_node_witness :
  Styled.format (Styled.defaults Styled.browserEnv) browserHost sample (VRef 0)
  = Styled.format (Styled.withColors false (Styled.defaults Styled.browserEnv))
      browserHost sample (VRef 0).
Proof.
  apply colours_only_under_node. right. left. reflexivity.
Defined.

(** X6.  Colours never change the content: the output of a logger is the
    output of the same logger with colours off, with some of its parts put
    between a colour code and the reset code; an exception is the same in
    both. *)
Theorem colours_wrap_tokens L host heap arg :
  match Styled.format (Styled.withColors false L) host heap arg,
        Styled.format L host heap arg with
  | Some (Returned plain), Some (Returned coloured) =>
      tinted plain coloured ∧ String.length plain ≤ String.length coloured
  | Some (Threw e1), Some (Threw e2) => e1 = e2
  | _, _ => False
  end.
Proof.
  unfold Styled.format.
  change (Styled.maxDepth (Styled.withColors false L)) with (Styled.maxDepth L).
  pose proof (styled_formatArgument_repaint L host heap tinted tinted_same
                tinted_append (tinted_colorizeText L)
                (S (Styled.maxDepth L + 1)) arg 0 EmptyString (∅ : Seen)) as H.
  destruct (styled_formatArgument_defined L host heap
              (S (Styled.maxDepth L + 1)) arg 0 EmptyString)
    with (∅ : Seen) as [r2 H2]; [lia | lia |].
  rewrite H2 in *. unfold alike in H.
  destruct (Styled.formatArgument (Styled.withColors false L) host heap
              (S (Styled.maxDepth L + 1)) arg 0 EmptyString ∅)
    as [[s1 [a1|e1]]|], r2 as [s2 [a2|e2]];
    simpl; try contradiction; destruct H as [_ H]; [|exact H].
  split; [exact H | by apply tinted_length].
Qed.

Example colours_wrap_tokens_sample :
  Styled.format (Styled.withPrettyPrint false (Styled.defaults Styled.nodeEnv))
    nodeHost sample (VRef 2)
  = Some (Returned
      (Styled.esc +:+ "[90m{" +:+ Styled.esc +:+ "[0m"
         +:+ Styled.esc +:+ "[33mself" +:+ Styled.esc +:+ "[0m: "
         +:+ Styled.esc +:+ "[31m[Circular Reference]" +:+ Styled.esc +:+ "[0m"
         +:+ Styled.esc +:+ "[90m}" +:+ Styled.esc +:+ "[0m")).
Proof. vm_compute. reflexivity. Qed.

(** ** The environment *)

Lemma isString_true x s : Runtime.isString x s = true ↔ x = Some s.
Proof.
  destruct x as [t|]; simpl; [|by split].
  rewrite String.eqb_eq. split; [by intros -> | by intros [= ->]].
Qed.

Lemma getEnvironment_edge g :
  Styled.isEdgeRuntime (Logging.getEnvironment g) = true ↔ edgeRuntime g.
Proof.
  unfold Logging.getEnvironment, edgeRuntime.
  destruct (Runtime.process g) as [p|] eqn:Hp;
    [destruct (Runtime.env p) as [vars|] eqn:Hv|].
  - destruct (Runtime.isString (Runtime.NEXT_RUNTIME vars) "edge") eqn:E.
    + apply isString_true in E. split; [|done]. intros _. by exists p, vars.
    + split.
      * destruct (Runtime.window g); discriminate.
      * intros (p' & vars' & [= <-] & Hv' & Hedge).
        rewrite Hv in Hv'. injection Hv' as <-.
        apply isString_true in Hedge. congruence.
  - split; [destruct (Runtime.window g); discriminate|].
    intros (p' & vars' & [= <-] & Hv' & _). congruence.
  - split; [destruct (Runtime.window g); discriminate|].
    by intros (p' & vars' & Hp' & _).
Qed.

Lemma getEnvironment_browser g :
  Styled.isBrowser (Logging.getEnvironment g) = true
  ↔ Styled.isEdgeRuntime (Logging.getEnvironment g) = false
    ∧ is_Some (Runtime.window g).
Proof.
  unfold Logging.getEnvironment.
  destruct (match Runtime.process g with Some p => _ | None => false end);
    [by split; [|intros []]|].
  destruct (Runtime.window g) as [w|]; [by split; [eauto|]|].
  destruct (Runtime.process g); (split; [done | by intros [_ []]]).
Qed.

Lemma getEnvironment_node g :
  Styled.isNode (Logging.getEnvironment g) = true
  ↔ Styled.isEdgeRuntime (Logging.getEnvironment g) = false
    ∧ Runtime.window g = None
    ∧ ∃ p v, Runtime.process g = Some p ∧ Runtime.versions p = Some v.
Proof.
  unfold Logging.getEnvironment.
  destruct (match Runtime.process g with Some p => _ | None => false end);
    [by split; [|intros []]|].
  destruct (Runtime.window g) as [w|]; [by split; [|intros (_ & ? & _)]|].
  destruct (Runtime.process g) as [p|] eqn:Hp; simpl.
  - rewrite bool_decide_eq_true. split.
    + intros [v Hv]. split_and!; [done..|]. by exists p, v.
    + intros (_ & _ & p' & v & [= <-] & Hv). by exists v.
  - split; [done|]. by intros (_ & _ & p' & v & Hp' & _).
Qed.


Lemma getEnvironment_production g p vars :
  Runtime.process g = Some p → Runtime.env p = Some vars →
  Runtime.NODE_ENV vars = Some "production" →
  Styled.isDevelopment (Logging.getEnvironment g) = false.
Proof.
  intros Hp Hv Hprod. unfold Logging.getEnvironment.
  rewrite Hp, Hv. unfold Runtime.notProduction. rewrite Hprod. simpl.
  destruct (Runtime.isString _ _); [reflexivity|].
  destruct (Runtime.window g); [apply andb_false_r | reflexivity].
Qed.

Lemma getEnvironment_production_host g w h :
  ¬ edgeRuntime g → Runtime.window g = Some w → Runtime.hostname w = Some h →
  Runtime.includes h "production" = true →
  Styled.isDevelopment (Logging.getEnvironment g) = false.
Proof.
  intros Hedge Hw Hh Hinc.
  pose proof (getEnvironment_edge g) as He.
  unfold Logging.getEnvironment in *.
  destruct (match Runtime.process g with Some p => _ | None => false end).
  - destruct Hedge. by apply He.
  - by rewrite Hw, Hh, Hinc.
Qed.

(** X8.  A logger made by the constructor in a host that defines [window],
    or in an edge runtime, never puts colour codes in its output, whatever
    the [colors] option says. *)
Theorem no_colours_in_browser_or_edge options g heap arg :
  is_Some (Runtime.window g) ∨ edgeRuntime g →
  let L := Logging.formatter (Logging.construct options g) in
  Styled.format L (Runtime.styledHost g) heap arg
  = Styled.format (Styled.withColors false L) (Runtime.styledHost g) heap arg.
Proof.
  intros Hhost L. apply styled_format_colours_off. right.
  change (Styled.env L) with (Logging.getEnvironment g).
  destruct Hhost as [[w Hw]|Hedge].
  - left. destruct (Styled.isNode _) eqn:E; [|reflexivity].
    apply getEnvironment_node in E as (_ & Hnone & _). congruence.
  - right. by apply getEnvironment_edge.
Qed.

Lemma no_colours_in_browser_or_edge_witness :
  let g := {| Runtime.process := None;
              Runtime.window := Some {| Runtime.hostname := Some "localhost" |};
              Runtime.elementDefined := true |} in
  let L := Logging.formatter (Logging.construct Logging.Options.none g) in
  Styled.format L (Runtime.styledHost g) sample (VRef 0)
  = Styled.format (Styled.withColors false L) (Runtime.styledHost g) sample
      (VRef 0).
Proof.
  intros g L. apply (no_colours_in_browser_or_edge Logging.Options.none g).
  left. by eexists.
Defined.

(** X9.  For a logger made by the constructor, the formatter hands a value
    to [formatDOMElement] exactly when the host is no edge runtime, defines
    [window] and [Element], and the value is an [Element]: the test on
    [window] in the formatter adds nothing to [env.isBrowser].  In an edge
    runtime, or without [window] or [Element], every element is formatted
    as the generic object of its own enumerable properties. *)
Theorem element_gate_of_constructed_logger options g :
  let L := Logging.formatter (Logging.construct options g) in
  let host := Runtime.styledHost g in
  (∀ o el,
     Styled.asElement L host o = Some el
     ↔ ¬ edgeRuntime g ∧ is_Some (Runtime.window g)
       ∧ Runtime.elementDefined g = true ∧ o = OElement el)
  ∧ (edgeRuntime g ∨ Runtime.window g = None
     ∨ Runtime.elementDefined g = false →
     ∀ heap fuel arg depth ind seen,
       Styled.formatArgument L host heap fuel arg depth ind seen
       = Styled.formatArgument L host (fun a => demote (heap a)) fuel arg depth
           ind seen).
Proof.
  intros L host.
  assert (Hgate : Styled.isBrowser (Styled.env L) && Styled.windowDefined host
                    && Styled.elementDefined host = true
                  ↔ ¬ edgeRuntime g ∧ is_Some (Runtime.window g)
                    ∧ Runtime.elementDefined g = true).
  { change (Styled.env L) with (Logging.getEnvironment g).
    rewrite !andb_true_iff, getEnvironment_browser. subst host. simpl.
    rewrite bool_decide_eq_true, <- getEnvironment_edge.
    destruct (Styled.isEdgeRuntime _); naive_solver. }
  split.
  - intros o el. unfold Styled.asElement.
    destruct Hgate as [Hopen Hshut]. destruct (_ && _ && _).
    + specialize (Hopen eq_refl). destruct o; naive_solver.
    + split; [done|]. intros (H1 & H2 & H3 & _).
      assert (false = true) by auto. done.
  - intros Hclosed heap fuel arg depth ind seen.
    apply related_eq, styled_formatArgument_demote.
    destruct Hgate as [Hopen _]. destruct (_ && _ && _); [|reflexivity].
    destruct (Hopen eq_refl) as (H1 & [w H2] & H3).
    destruct Hclosed as [?|[?|?]]; [done | congruence | congruence].
Qed.

Lemma element_gate_of_constructed_logger_witness :
  let g := {| Runtime.process :=
                Some {| Runtime.env :=
                          Some {| Runtime.NEXT_RUNTIME := Some "edge";
                                  Runtime.NODE_ENV := None |};
                        Runtime.versions := None |};
              Runtime.window := Some {| Runtime.hostname := None |};
              Runtime.elementDefined := true |} in
  let L := Logging.formatter (Logging.construct Logging.Options.none g) in
  Styled.formatArgument L (Runtime.styledHost g) sample 3 (VRef 7) 0 EmptyString ∅
  = Styled.formatArgument L (Runtime.styledHost g) (fun a => demote (sample a))
      3 (VRef 7) 0 EmptyString ∅.
Proof.
  intros g L.
  apply (proj2 (element_gate_of_constructed_logger Logging.Options.none g)).
  left. eexists _, _. split_and!; reflexivity.
Defined.

(** ** [getEnvironment] of [src/index.ts] *)

(** X10.  [getEnvironment] of [src/index.ts] reads [window] and [process]
    without a test on their existence.  Under Node.js it returns.  In a
    host that is not Node.js it throws when [window] is undefined, and also
    in a browser without a global [process] unless the host name contains
    "production"; when the host name contains "production" it returns,
    with [isDevelopment] false, without a look at [process]. *)
Theorem plain_getEnvironment_throws :
  (∀ g p v vars,
     Runtime.process g = Some p → Runtime.versions p = Some (Some v) →
     Runtime.env p = Some vars →
     PlainRuntime.getEnvironment g
     = Returned {| PlainRuntime.isDevelopment := Runtime.notProduction vars;
                   PlainRuntime.isNode := true |})
  ∧ (∀ g,
       (∀ p v, Runtime.process g = Some p →
               Runtime.versions p ≠ Some (Some v)) →
       Runtime.window g = None →
       ∃ e, PlainRuntime.getEnvironment g = Threw e)
  ∧ (∀ g w h,
       Runtime.process g = None → Runtime.window g = Some w →
       Runtime.hostname w = Some h →
       Runtime.includes h "production" = false →
       ∃ e, PlainRuntime.getEnvironment g = Threw e)
  ∧ (∀ g w h,
       (∀ p v, Runtime.process g = Some p →
               Runtime.versions p ≠ Some (Some v)) →
       Runtime.window g = Some w → Runtime.hostname w = Some h →
       Runtime.includes h "production" = true →
       PlainRuntime.getEnvironment g
       = Returned {| PlainRuntime.isDevelopment := false;
                     PlainRuntime.isNode := false |}).
Proof.
  split_and!.
  - intros g p v vars Hp Hv He. unfold PlainRuntime.getEnvironment.
    rewrite Hp, Hv. unfold PlainRuntime.readNodeEnv. by rewrite Hp, He.
  - intros g Hnode Hw. unfold PlainRuntime.getEnvironment.
    assert (match Runtime.process g with
            | Some p => match Runtime.versions p with
                        | Some (Some _) => true
                        | _ => false
                        end
            | None => false
            end = false) as ->.
    { destruct (Runtime.process g) as [p|] eqn:Hp; [|reflexivity].
      destruct (Runtime.versions p) as [[v|]|] eqn:Hv; try reflexivity.
      by destruct (Hnode p v). }
    unfold PlainRuntime.readHostname. rewrite Hw. by eexists.
  - intros g w h Hp Hw Hh Hinc. unfold PlainRuntime.getEnvironment.
    unfold PlainRuntime.readHostname, PlainRuntime.readNodeEnv.
    rewrite Hp, Hw, Hh, Hinc. by eexists.
  - intros g w h Hnode Hw Hh Hinc. unfold PlainRuntime.getEnvironment.
    assert (match Runtime.process g with
            | Some p => match Runtime.versions p with
                        | Some (Some _) => true
                        | _ => false
                        end
            | None => false
            end = false) as ->.
    { destruct (Runtime.process g) as [p|] eqn:Hp; [|reflexivity].
      destruct (Runtime.versions p) as [[v|]|] eqn:Hv; try reflexivity.
      by destruct (Hnode p v). }
    unfold PlainRuntime.readHostname. by rewrite Hw, Hh, Hinc.
Qed.

Lemma plain_getEnvironment_throws_witness :
  (∃ e,
     PlainRuntime.getEnvironment
       {| Runtime.process := None;
          Runtime.window := Some {| Runtime.hostname := Some "localhost" |};
          Runtime.elementDefined := true |} = Threw e)
  ∧ (∃ e,
       PlainRuntime.getEnvironment
         {| Runtime.process :=
              Some {| Runtime.env :=
                        Some {| Runtime.NEXT_RUNTIME := Some "edge";
                                Runtime.NODE_ENV := Some "development" |};
                      Runtime.versions := None |};
            Runtime.window := None;
            Runtime.elementDefined := false |} = Threw e)
  ∧ PlainRuntime.getEnvironment
      {| Runtime.process := None;
         Runtime.window :=
           Some {| Runtime.hostname := Some "production.example.com" |};
         Runtime.elementDefined := true |}
    = Returned {| PlainRuntime.isDevelopment := false;
                  PlainRuntime.isNode := false |}
  ∧ PlainRuntime.getEnvironment
      {| Runtime.process :=
           Some {| Runtime.env :=
                     Some {| Runtime.NEXT_RUNTIME := None;
                             Runtime.NODE_ENV := Some "production" |};
                   Runtime.versions := Some (Some "20.11.0") |};
         Runtime.window := None;
         Runtime.elementDefined := false |}
    = Returned {| PlainRuntime.isDevelopment := false;
                  PlainRuntime.isNode := true |}.
Proof.
  destruct plain_getEnvironment_throws as (H1 & H2 & H3 & H4). split_and!.
  - eapply H3; reflexivity.
  - apply H2; [|reflexivity]. intros p v [= <-]. discriminate.
  - eapply H4; [|reflexivity..]. intros p v. discriminate.
  - match goal with
    | |- PlainRuntime.getEnvironment ?g = _ =>
        eapply (H1 g _ "20.11.0"
                  {| Runtime.NEXT_RUNTIME := None;
                     Runtime.NODE_ENV := Some "production" |})
    end; reflexivity.
Defined.

(** ** The logging methods *)

(** X11.  [formatMetadata] returns, in this order, the namespace tag when
    the namespace is not empty, the level tag in upper case, the timestamp
    tag when timestamps are on, and the tag of the caller: [filter(Boolean)]
    drops nothing but the two optional tags, so the list has two to four
    strings and none is empty. *)
Theorem formatMetadata_tags I caller now level :
  let tags := Logging.formatMetadata I caller now level in
  tags
  = ((if Logging.truthy (Logging.namespace I)
      then ["[" +:+ Logging.namespace I +:+ "]"] else [])
     ++ ["[" +:+ Logging.toUpperCase level +:+ "]"]
     ++ (if Logging.includeTimestamp I then ["[" +:+ now +:+ "]"] else [])
     ++ ["[" +:+ Logging.file caller +:+ ":" +:+ Logging.line caller +:+ "]"])%list
  ∧ Forall (fun tag => tag ≠ EmptyString) tags
  ∧ 2 ≤ length tags ≤ 4.
Proof.
  intros tags. subst tags. unfold Logging.formatMetadata.
  destruct (Logging.truthy (Logging.namespace I)),
    (Logging.includeTimestamp I);
    (split_and!; [reflexivity | repeat constructor; discriminate
                 | simpl; lia | simpl; lia]).
Qed.

Lemma formatEach_all I g heap args strs :
  Forall2 (fun arg s =>
             Styled.format (Logging.formatter I) (Runtime.styledHost g) heap arg
             = Some (Returned s)) args strs →
  Logging.formatEach I g heap args = Some (Returned strs).
Proof.
  induction 1 as [|arg s args strs Harg _ IH]; [reflexivity|].
  simpl. by rewrite Harg, IH.
Qed.


Lemma formatEach_defined I g heap args :
  is_Some (Logging.formatEach I g heap args).
Proof.
  induction args as [|arg args [r IH]]; simpl; [by eexists|].
  destruct (styled_formatArgument_defined (Logging.formatter I)
              (Runtime.styledHost g) heap
              (S (Styled.maxDepth (Logging.formatter I) + 1)) arg 0 EmptyString)
    with (∅ : Seen) as [[seen o] H]; [lia | lia |].
  unfold Styled.format. rewrite H. simpl.
  destruct o; [|by eexists]. rewrite IH. destruct r; by eexists.
Qed.

Lemma log_unsuppressed I g heap caller now level args :
  Logging.enabled I = true →
  Logging.levelValue (Logging.levelPriority level)
    ≤ Logging.levelValue (Logging.logLevel I) →
  Logging.developmentOrShown I = true →
  ∃ calls,
    (∀ strs, calls strs ≠ [])
    ∧ Logging._log I g heap caller now level args
      = Logging.withFormatted I g heap args calls.
Proof.
  intros He Hl Hd. unfold Logging._log. apply Nat.ltb_ge in Hl.
  rewrite He, Hl, Hd. cbn [negb].
  destruct (_ && _); [|destruct (_ || _)];
    (eexists; split; [|reflexivity]); intros strs; discriminate.
Qed.

(** X12.  [_log] makes no call on the console, and formats nothing, exactly
    when the logger is disabled, or the level of the method is above
    [logLevel], or the environment is production and [showInProd] is off.
    Then no exception leaves it either, whatever the arguments are.
    Otherwise it makes a call or throws.  The level never holds back
    [error], and it holds back [log] exactly when it holds back [info]. *)
Theorem log_suppression I g heap caller now level args :
  let suppressed :=
    Logging.enabled I = false
    ∨ Logging.levelValue (Logging.logLevel I)
      < Logging.levelValue (Logging.levelPriority level)
    ∨ (Styled.isDevelopment (Styled.env (Logging.formatter I)) = false
       ∧ Logging.showInProd I = false) in
  (suppressed ↔
   Logging._log I g heap caller now level args = Some (Returned []))
  ∧ is_Some (Logging._log I g heap caller now level args)
  ∧ ¬ Logging.levelValue (Logging.logLevel I)
      < Logging.levelValue (Logging.levelPriority Logging.Merror)
  ∧ Logging.levelPriority Logging.Mlog = Logging.levelPriority Logging.Minfo.
Proof.
  intros suppressed. subst suppressed.
  split_and!; [| | simpl; lia | reflexivity].
  - destruct (Logging.enabled I) eqn:He.
    2: { split; [|by left]. intros _. unfold Logging._log. by rewrite He. }
    destruct (Nat.ltb_spec (Logging.levelValue (Logging.logLevel I))
                (Logging.levelValue (Logging.levelPriority level)))
      as [Hl|Hl].
    { split; [|by right; left]. intros _. unfold Logging._log.
      apply Nat.ltb_lt in Hl. by rewrite He, Hl. }
    destruct (Logging.developmentOrShown I) eqn:Hd.
    + destruct (log_unsuppressed I g heap caller now level args He Hl Hd)
        as (calls & Hcalls & ->).
      unfold Logging.developmentOrShown in Hd. apply orb_true_iff in Hd.
      split.
      * intros [?|[?|[? ?]]]; [done | lia | destruct Hd; congruence].
      * unfold Logging.withFormatted.
        destruct (Logging.formatEach I g heap args) as [[strs|e]|];
          [|discriminate..].
        intros [= H]. by destruct (Hcalls strs).
    + split.
      * intros _. unfold Logging._log. apply Nat.ltb_ge in Hl.
        by rewrite He, Hl, Hd.
      * intros _. right. right. unfold Logging.developmentOrShown in Hd.
        by apply orb_false_iff in Hd.
  - unfold Logging._log, Logging.withFormatted.
    destruct (formatEach_defined I g heap args) as [[strs|e] ->];
      repeat match goal with
             | |- context [if ?b then _ else _] => destruct b
             end; by eexists.
Qed.

Lemma log_suppression_witness :
  let I := Logging.setEnabled false
             (Logging.construct Logging.Options.none
                {| Runtime.process := None; Runtime.window := None;
                   Runtime.elementDefined := false |}) in
  Logging._log I
    {| Runtime.process := None; Runtime.window := None;
       Runtime.elementDefined := false |}
    sample
    {| Logging.file := "app.ts"; Logging.line := "3"; Logging.column := "1" |}
    "2026-01-01T00:00:00.000Z" Logging.Merror [VRef 3]
  = Some (Returned []).
Proof.
  intros I. apply log_suppression. left. reflexivity.
Defined.



(** X14.  When every argument is formatted, each on its own from an empty
    visited map: outside a browser [_log] makes one call, on the method of
    the level, with the tags of [formatMetadata] and then the formatted
    arguments, between the colour code of the level and the reset code
    unless the runtime is an edge runtime or colours are off.  In a browser
    the first call carries one string, "%c" and the tags and arguments
    joined by spaces, and the style of the level; with pretty-printing and
    at least one object among the arguments it is followed by a collapsed
    group that passes each object argument, in order, to the method of the
    level; without, by nothing. *)
Theorem log_calls I g heap caller now level args strs :
  Logging.enabled I = true →
  Logging.levelValue (Logging.levelPriority level)
    ≤ Logging.levelValue (Logging.logLevel I) →
  Logging.developmentOrShown I = true →
  Forall2 (fun arg s =>
             Styled.format (Logging.formatter I) (Runtime.styledHost g) heap arg
             = Some (Returned s)) args strs →
  let e := Styled.env (Logging.formatter I) in
  let tags :=
    Logging.formatMetadata I caller now (Logging.methodName level) in
  let call m xs := {| Logging.method := m; Logging.arguments := xs |} in
  let objects := List.filter Logging.isObject args in
  (Styled.isBrowser e = false ∨ Styled.isNode e = true →
   Logging._log I g heap caller now level args
   = Some (Returned
       [ call (Logging.Clevel level)
           (if Styled.isEdgeRuntime e || negb (Styled.useColors (Logging.formatter I))
            then map Logging.Text (tags ++ strs)
            else Logging.Text (Logging.colors level)
                 :: map Logging.Text (tags ++ strs)
                 ++ [Logging.Text Logging.colorsReset]) ]))
  ∧ (Styled.isBrowser e = true → Styled.isNode e = false →
     Logging._log I g heap caller now level args
     = Some (Returned
         (call (Logging.Clevel level)
            [ Logging.Text ("%c" +:+ join " " (tags ++ strs));
              Logging.Text (Logging.styles level) ]
          :: if Styled.prettyPrint (Logging.formatter I) && (0 <? length objects)
             then
               call Logging.CgroupCollapsed
                 [Logging.Text "Raw Objects (for inspection)"]
               :: map (fun obj => call (Logging.Clevel level) [Logging.Raw obj])
                    objects
               ++ [call Logging.CgroupEnd []]
             else []))).
Proof.
  intros He Hl Hd Hargs e tags call objects.
  apply formatEach_all in Hargs.
  unfold Logging._log, Logging.withFormatted. apply Nat.ltb_ge in Hl.
  rewrite He, Hl, Hd. cbn [negb]. fold e. split.
  - intros Hnode.
    assert (Styled.isBrowser e && negb (Styled.isNode e) = false) as ->.
    { destruct Hnode as [-> | ->]; [reflexivity | apply andb_false_r]. }
    rewrite Hargs. by destruct (_ || _).
  - intros -> ->. cbn [andb negb]. rewrite Hargs. subst objects.
    destruct (Styled.prettyPrint (Logging.formatter I)); [reflexivity|].
    reflexivity.
Qed.

Lemma log_calls_witness :
  let g := {| Runtime.process := None;
              Runtime.window := Some {| Runtime.hostname := Some "localhost" |};
              Runtime.elementDefined := true |} in
  let I := Logging.construct Logging.Options.none g in
  let caller :=
    {| Logging.file := "app.ts"; Logging.line := "3"; Logging.column := "1" |} in
  let call m xs := {| Logging.method := m; Logging.arguments := xs |} in
  Logging._log I g sample caller "T" Logging.Minfo [VString "n"; VRef 6; VRef 6]
  = Some (Returned
      [ call (Logging.Clevel Logging.Minfo)
          [ Logging.Text ("%c" +:+ join " "
              (Logging.formatMetadata I caller "T" "info"
                 ++ [dquote +:+ "n" +:+ dquote; "{}"; "{}"]));
            Logging.Text "color: #00cc00" ];
        call Logging.CgroupCollapsed [Logging.Text "Raw Objects (for inspection)"];
        call (Logging.Clevel Logging.Minfo) [Logging.Raw (VRef 6)];
        call (Logging.Clevel Logging.Minfo) [Logging.Raw (VRef 6)];
        call Logging.CgroupEnd [] ]).
Proof.
  intros g I caller call.
  apply (proj2 (log_calls I g sample caller "T" Logging.Minfo
                  [VString "n"; VRef 6; VRef 6]
                  [dquote +:+ "n" +:+ dquote; "{}"; "{}"]
                  eq_refl ltac:(simpl; lia) eq_refl
                  ltac:(repeat constructor))); reflexivity.
Defined.

(** X15.  [group], [groupEnd], [time] and [timeEnd] look at the environment
    and [showInProd] only: disabling the logger or changing its level does
    not change what they do, while a disabled logger prints no message.
    Where logging is allowed, [group] and [groupEnd] always make one call
    ([console.log] with a banner when the console has no [group] or
    [groupEnd]); [time] and [timeEnd] make none when the console lacks
    them. *)
Theorem grouping_ignores_enabled I console label b l :
  let off := Logging.setLogLevel l (Logging.setEnabled b I) in
  Logging.group off console label = Logging.group I console label
  ∧ Logging.groupEnd off console = Logging.groupEnd I console
  ∧ Logging.time off console label = Logging.time I console label
  ∧ Logging.timeEnd off console label = Logging.timeEnd I console label
  ∧ (∀ g heap caller now level args,
       Logging._log (Logging.setEnabled false I) g heap caller now level args
       = Some (Returned []))
  ∧ (Logging.developmentOrShown I = true →
     length (Logging.group I console label) = 1
     ∧ length (Logging.groupEnd I console) = 1
     ∧ (Logging.hasGroup console = false →
        Logging.group I console label
        = [ {| Logging.method := Logging.Clevel Logging.Mlog;
               Logging.arguments :=
                 [Logging.Text ("=== GROUP START: " +:+ label +:+ " ===")] |} ])
     ∧ (Logging.hasTime console = false → Logging.time I console label = [])
     ∧ (Logging.hasTimeEnd console = false →
        Logging.timeEnd I console label = []))
  ∧ (Logging.developmentOrShown I = false →
     Logging.group I console label = [] ∧ Logging.groupEnd I console = []
     ∧ Logging.time I console label = []
     ∧ Logging.timeEnd I console label = []).
Proof.
  intros off. subst off.
  unfold Logging.group, Logging.groupEnd, Logging.time, Logging.timeEnd.
  split_and!; try reflexivity.
  - intros Hd. rewrite Hd. cbn [negb]. split_and!.
    + by destruct (Logging.hasGroup console).
    + by destruct (Logging.hasGroupEnd console).
    + by intros ->.
    + by intros ->.
    + by intros ->.
  - intros Hd. by rewrite Hd.
Qed.

Lemma grouping_ignores_enabled_witness :
  let g := {| Runtime.process := None; Runtime.window := None;
              Runtime.elementDefined := false |} in
  let console := {| Logging.hasGroup := false; Logging.hasGroupEnd := false;
                    Logging.hasTime := false; Logging.hasTimeEnd := false |} in
  length (Logging.group
            (Logging.setEnabled false (Logging.construct Logging.Options.none g))
            console "load") = 1.
Proof.
  intros g console.
  apply (grouping_ignores_enabled
           (Logging.setEnabled false (Logging.construct Logging.Options.none g))
           console "load" false Logging.ERROR).
  reflexivity.
Defined.

(** X16.  In production nothing is printed unless [showInProd] is set: for
    a logger made by the constructor with [showInProd] left out or false,
    where [process.env.NODE_ENV] is "production", or in a browser (no edge
    runtime) whose host name contains "production", every logging method,
    [group], [groupEnd], [time] and [timeEnd] make no call on the console,
    and no argument is formatted. *)
Theorem production_is_silent options g console heap caller now level args label :
  default false (Logging.Options.showInProd options) = false →
  (∃ p vars,
     Runtime.process g = Some p ∧ Runtime.env p = Some vars
     ∧ Runtime.NODE_ENV vars = Some "production")
  ∨ (¬ edgeRuntime g
     ∧ ∃ w h,
         Runtime.window g = Some w ∧ Runtime.hostname w = Some h
         ∧ Runtime.includes h "production" = true) →
  let I := Logging.construct options g in
  Logging._log I g heap caller now level args = Some (Returned [])
  ∧ Logging.group I console label = []
  ∧ Logging.groupEnd I console = []
  ∧ Logging.time I console label = []
  ∧ Logging.timeEnd I console label = [].
Proof.
  intros Hshow Hprod I.
  assert (Hd : Logging.developmentOrShown I = false).
  { unfold Logging.developmentOrShown. subst I. cbn. rewrite Hshow.
    rewrite orb_false_r.
    destruct Hprod as [(p & vars & Hp & Hv & Hn)|(Hedge & w & h & Hw & Hh & Hi)].
    - by eapply getEnvironment_production.
    - by eapply getEnvironment_production_host. }
  unfold Logging.group, Logging.groupEnd, Logging.time, Logging.timeEnd.
  rewrite Hd. split_and!; try reflexivity.
  unfold Logging._log. rewrite Hd.
  destruct (Logging.enabled I); [|reflexivity].
  by destruct (_ <? _).
Qed.

Lemma production_is_silent_witness :
  let g := {| Runtime.process :=
                Some {| Runtime.env :=
                          Some {| Runtime.NEXT_RUNTIME := None;
                                  Runtime.NODE_ENV := Some "production" |};
                        Runtime.versions := Some (Some "20.11.0") |};
              Runtime.window := None;
              Runtime.elementDefined := false |} in
  Logging._log (Logging.construct Logging.Options.none g) g sample
    {| Logging.file := "app.ts"; Logging.line := "3"; Logging.column := "1" |}
    "2026-01-01T00:00:00.000Z" Logging.Merror [VRef 3]
  = Some (Returned []).
Proof.
  intros g.
  apply (production_is_silent Logging.Options.none g
           {| Logging.hasGroup := true; Logging.hasGroupEnd := true;
              Logging.hasTime := true; Logging.hasTimeEnd := true |}
           sample _ _ Logging.Merror [VRef 3] "x").
  - reflexivity.
  - left. eexists _, _. split_and!; reflexivity.
Defined.

(** ** Inline output and indentation *)

(** X17.  Without pretty-printing neither [indentSize] nor the indentation
    handed to a call has any effect: the call ends alike for every
    indentation and every [indentSize]. *)
Theorem inline_output_ignores_indentation L host heap fuel arg depth ind ind' n seen :
  Styled.prettyPrint L = false →
  Styled.formatArgument L host heap fuel arg depth ind seen
  = Styled.formatArgument (styledWithIndentSize n L) host heap fuel arg depth
      ind' seen.
Proof.
  intros Hp. apply related_eq. clear seen. revert arg depth ind ind'.
  induction fuel as [|fuel IH]; intros arg depth ind ind'; [apply related_refl|].
  cbn [Styled.formatArgument]. unfold Styled.formatArgumentBody.
  change (Styled.maxDepth (styledWithIndentSize n L)) with (Styled.maxDepth L).
  change (Styled.maxStringLength (styledWithIndentSize n L))
    with (Styled.maxStringLength L).
  change (Styled.colorizeText (styledWithIndentSize n L))
    with (Styled.colorizeText L).
  change (Styled.checkCircular (styledWithIndentSize n L))
    with (Styled.checkCircular L).
  change (Styled.asElement (styledWithIndentSize n L))
    with (Styled.asElement L).
  change (Styled.formatDOMElement (styledWithIndentSize n L))
    with (Styled.formatDOMElement L).
  change (Styled.prettyPrint (styledWithIndentSize n L))
    with (Styled.prettyPrint L).
  rewrite Hp. cbn [negb].
  destruct (Styled.maxDepth L <? depth); [apply related_refl|].
  destruct arg; try apply related_refl.
  destruct (Styled.asElement L host (heap a)); [apply related_refl|].
  destruct (heap a); same_of_rest IH.
Qed.

Lemma inline_output_ignores_indentation_witness :
  Styled.formatArgument (compact Styled.nodeEnv) nodeHost sample 4 (VRef 0) 0
    EmptyString ∅
  = Styled.formatArgument (styledWithIndentSize 8 (compact Styled.nodeEnv))
      nodeHost sample 4 (VRef 0) 0 "      " ∅.
Proof. apply inline_output_ignores_indentation. reflexivity. Defined.

(** ** Elements in [src/index.ts] *)



